(** * print_tree_unicode: a directory tree printer that reveals the codepoints
      of suspicious file names

    A shallow embedding of [print_tree_unicode.py] and the properties of its
    output.  Python strings are sequences of Unicode codepoints, Python
    integers are [Z], [print] appends a line to standard output, and an
    uncaught exception ends the call with the lines written so far.

    The functions of the interpreter the program calls ([sorted], [repr],
    the format [04X], [startswith], [join], [enumerate]) are written out in
    the module [Py]; the file system is a tree that answers [os.listdir] and
    [os.path.isdir].  Standard output is taken to accept every character.
    The exceptions of the model are those of a listing: a run that the
    interpreter ends for another reason, as the recursion limit does on a
    tree of a thousand levels, does not return, and what is said of a run
    that returns is said under that hypothesis. *)

From Stdlib Require Import String Ascii.
From Stdlib Require Import List ZArith NArith Lia Bool.
From Stdlib Require Import Sorting.Sorted Sorting.Permutation Sorting.Mergesort Orders.
Import ListNotations.

Set Implicit Arguments.

(** ** Python values *)

(** A character is its codepoint; a [str] is a sequence of characters. *)
Definition char : Type := N.
Definition str : Type := list char.

(** [ord(c)] is a Python integer. *)
Definition ord (c : char) : Z := Z.of_N c.

(** An ASCII literal of the source, as a [str]. *)
Definition lit (s : string) : str := map N_of_ascii (list_ascii_of_string s).

Module Py.

(** [a == b] on strings. *)
Fixpoint str_eqb (a b : str) : bool :=
  match a, b with
  | [], [] => true
  | x :: a', y :: b' => (x =? y)%N && str_eqb a' b'
  | _, _ => false
  end.

(** [s.startswith(p)]. *)
Fixpoint startswith (s p : str) : bool :=
  match p, s with
  | [], _ => true
  | _ :: _, [] => false
  | y :: p', x :: s' => (x =? y)%N && startswith s' p'
  end.

(** [a <= b] on strings: lexicographic on codepoints. *)
Fixpoint str_leb (a b : str) : bool :=
  match a, b with
  | [], _ => true
  | _ :: _, [] => false
  | x :: a', y :: b' =>
      if (x <? y)%N then true
      else if (y <? x)%N then false
      else str_leb a' b'
  end.

(** [sep.join(parts)]. *)
Fixpoint join (sep : str) (parts : list str) : str :=
  match parts with
  | [] => []
  | [p] => p
  | p :: rest => p ++ sep ++ join sep rest
  end.

(** [enumerate(l)], counting from [start]. *)
Fixpoint enumerate_from {A : Type} (start : Z) (l : list A) : list (Z * A) :=
  match l with
  | [] => []
  | x :: rest => (start, x) :: enumerate_from (start + 1) rest
  end.

Definition enumerate {A : Type} (l : list A) : list (Z * A) := enumerate_from 0 l.

(** [len(l)]. *)
Definition len {A : Type} (l : list A) : Z := Z.of_nat (length l).

(** *** Integer formatting *)

(** One hexadecimal digit, [0-9A-F] or [0-9a-f]. *)
Definition hex_digit (upper : bool) (d : N) : char :=
  if (d <? 10)%N then (48 + d)%N
  else if upper then (55 + d)%N else (87 + d)%N.

Fixpoint hex_loop (fuel : nat) (upper : bool) (n : N) (acc : str) : str :=
  match fuel with
  | O => acc
  | S fuel' =>
      if (n =? 0)%N then acc
      else hex_loop fuel' upper (n / 16)%N (hex_digit upper (n mod 16)%N :: acc)
  end.

(** The digits of [format(n, 'X')] or [format(n, 'x')], without padding. *)
Definition hex (upper : bool) (n : N) : str :=
  if (n =? 0)%N then [48%N] else hex_loop (N.size_nat n) upper n [].

(** Left padding with ['0'] up to [width] characters. *)
Definition zfill (width : nat) (s : str) : str :=
  repeat 48%N (width - length s) ++ s.

(** [f"{cp:04X}"]: uppercase hexadecimal, zero-padded to width 4, the sign
    counting in the width. *)
Definition format_04X (cp : Z) : str :=
  if (cp <? 0)%Z then 45%N :: zfill 3 (hex true (Z.to_N (- cp)))
  else zfill 4 (hex true (Z.to_N cp)).

(** *** repr of a string *)

Section Repr.

(** [str.isprintable] on one non-ASCII character: a table of the Unicode
    database of the interpreter, which the program does not contain. *)
Variable isprintable : char -> bool.

(** The quote [repr] encloses the string in: a double quote when the
    string has a single quote and no double quote, a single quote
    otherwise. *)
Definition repr_quote (s : str) : char :=
  if existsb (N.eqb 39) s && negb (existsb (N.eqb 34) s) then 34%N else 39%N.

Definition repr_char (quote : char) (ch : char) : str :=
  if (ch =? quote)%N || (ch =? 92)%N then [92%N; ch]
  else if (ch =? 9)%N then [92%N; 116%N]
  else if (ch =? 10)%N then [92%N; 110%N]
  else if (ch =? 13)%N then [92%N; 114%N]
  else if (ch <? 32)%N || (ch =? 127)%N then 92%N :: 120%N :: zfill 2 (hex false ch)
  else if (ch <? 127)%N then [ch]
  else if isprintable ch then [ch]
  else if (ch <=? 255)%N then 92%N :: 120%N :: zfill 2 (hex false ch)
  else if (ch <=? 65535)%N then 92%N :: 117%N :: zfill 4 (hex false ch)
  else 92%N :: 85%N :: zfill 8 (hex false ch).

(** [repr(s)], the [!r] conversion of an f-string. *)
Definition repr (s : str) : str :=
  let quote := repr_quote s in
  quote :: flat_map (repr_char quote) s ++ [quote].

End Repr.

(** *** sorted *)

Module StrOrder <: TotalLeBool.
Definition t := str.
Definition leb := str_leb.
Lemma leb_total : forall a b, leb a b = true \/ leb b a = true.
Proof.
  induction a as [|x a IH]; intros [|y b]; simpl; auto.
  destruct (N.ltb_spec x y); auto.
  destruct (N.ltb_spec y x); auto.
Qed.
End StrOrder.

Module StrSort := Sort StrOrder.

(** [sorted(l)] on a list of strings. *)
Definition sorted (l : list str) : list str := StrSort.sort l.

End Py.

(** ** Standard output and exceptions *)

Inductive exn : Type :=
| PermissionError
| FileNotFoundError
| NotADirectoryError
| OSError.

Inductive outcome (A : Type) : Type :=
| Return (a : A)
| Raise (e : exn).
Arguments Raise {A} e.

(** A call writes lines to standard output and then returns or raises. *)
Definition IO (A : Type) : Type := (list str * outcome A)%type.

Definition output {A : Type} (m : IO A) : list str := fst m.
Definition result {A : Type} (m : IO A) : outcome A := snd m.

Definition ret {A : Type} (a : A) : IO A := ([], Return a).
Definition raise {A : Type} (e : exn) : IO A := ([], Raise e).
Definition print (line : str) : IO unit := ([line], Return tt).

Definition bind {A B : Type} (m : IO A) (k : A -> IO B) : IO B :=
  match result m with
  | Return a => (output m ++ output (k a), result (k a))
  | Raise e => (output m, Raise e)
  end.

Declare Scope io_scope.
Delimit Scope io_scope with io.
Notation "m ;; k" := (bind m (fun _ => k))
  (at level 61, right associativity) : io_scope.
Open Scope io_scope.

(** [for x in l: body(x)]. *)
Definition for_ {A : Type} (body : A -> IO unit) : list A -> IO unit :=
  fix loop (l : list A) : IO unit :=
    match l with
    | [] => ret tt
    | x :: rest => body x ;; loop rest
    end.

(** ** The file system *)

(** What the program observes of a path: [os.path.isdir], [os.listdir] and
    the paths [os.path.join] forms from a directory and one of its names.
    A tree of finite depth: links that lead back into an ancestor are not
    modelled. *)
Inductive node : Type :=
| File
| Missing
| Dir (listing : outcome (list str)) (child : str -> node).

Definition os_path_isdir (n : node) : bool :=
  match n with
  | Dir _ _ => true
  | _ => false
  end.

Definition os_listdir (n : node) : outcome (list str) :=
  match n with
  | File => Raise NotADirectoryError
  | Missing => Raise FileNotFoundError
  | Dir listing _ => listing
  end.

(** The node at [os.path.join(root, entry)]. *)
Definition os_path_join (root : node) (entry : str) : node :=
  match root with
  | Dir _ child => child entry
  | _ => Missing
  end.

(** ** The program *)

Definition char_to_codepoint (c : char) : str :=
  let cp := ord c in
  if (cp <? 256)%Z then lit "U+" ++ Py.format_04X cp
  else lit "U+" ++ Py.format_04X cp.

Section Program.

Variable isprintable : char -> bool.

Definition filename_with_codepoints (name : str) : str :=
  let codepoints := map char_to_codepoint name in
  Py.repr isprintable name ++ lit " [" ++ Py.join (lit " ") codepoints ++ lit "]".

Fixpoint print_tree (root : node) (prefix : str) (ignore_hidden ignore_git : bool)
  {struct root} : IO unit :=
  match root with
  | File => raise NotADirectoryError
  | Missing => raise FileNotFoundError
  | Dir listing child =>
      match listing with
      | Raise PermissionError => print (prefix ++ lit "[Permission Denied]")
      | Raise e => raise e
      | Return names =>
          let entries := Py.sorted names in
          let entries :=
            if ignore_hidden
            then filter (fun e => negb (Py.startswith e (lit "."))) entries
            else entries in
          let entries :=
            if ignore_git
            then filter (fun e => negb (Py.str_eqb e (lit ".git"))) entries
            else entries in
          let dirs := filter (fun entry => os_path_isdir (child entry)) entries in
          let files := filter (fun entry => negb (os_path_isdir (child entry))) entries in
          let all_entries := files ++ dirs in
          for_ (fun '(i, entry) =>
              let is_last := (i =? Py.len all_entries - 1)%Z in
              let connector : str :=
                if is_last then [9492; 9472; 9472; 32]%N else [9500; 9472; 9472; 32]%N in
              let path := child entry in
              let is_dir := os_path_isdir path in
              let has_special :=
                existsb (fun c => (127 <? ord c)%Z || (ord c <? 32)%Z) entry in
              (if has_special
               then print (prefix ++ connector ++ filename_with_codepoints entry
                           ++ (if is_dir then lit "/" else lit ""))
               else print (prefix ++ connector ++ entry
                           ++ (if is_dir then lit "/" else lit ""))) ;;
              if is_dir
              then
                let extension : str :=
                  if is_last then lit "    " else [9474; 32; 32; 32]%N in
                print_tree path (prefix ++ extension) ignore_hidden ignore_git
              else ret tt)
            (Py.enumerate all_entries)
      end
  end.

(** [main], for the root [os.path.abspath] resolved to the node [root] with
    the absolute path [root_path], on a standard output that can write the
    path. *)
Definition main (root_path : str) (root : node) : IO unit :=
  print ([128193; 32]%N ++ root_path) ;;
  print [] ;;
  print_tree root [] true true ;;
  print [] ;;
  print (lit "Legend: Files with special Unicode show as 'name' [U+XXXX U+XXXX ...]").

End Program.

(** The body of the loop of [print_tree], for the entry at index [i] of a
    listing of [n] entries under the directory whose names resolve through
    [child]. *)
Definition visit (isprintable : char -> bool) (child : str -> node) (prefix : str)
  (ignore_hidden ignore_git : bool) (n : Z) (ie : Z * str) : IO unit :=
  let '(i, entry) := ie in
  let is_last := (i =? n - 1)%Z in
  let connector : str :=
    if is_last then [9492; 9472; 9472; 32]%N else [9500; 9472; 9472; 32]%N in
  let path := child entry in
  let is_dir := os_path_isdir path in
  let has_special :=
    existsb (fun c => (127 <? ord c)%Z || (ord c <? 32)%Z) entry in
  (if has_special
   then print (prefix ++ connector ++ filename_with_codepoints isprintable entry
               ++ (if is_dir then lit "/" else lit ""))
   else print (prefix ++ connector ++ entry
               ++ (if is_dir then lit "/" else lit ""))) ;;
  if is_dir
  then
    let extension : str :=
      if is_last then lit "    " else [9474; 32; 32; 32]%N in
    print_tree isprintable path (prefix ++ extension) ignore_hidden ignore_git
  else ret tt.

(** The value of [entries] after the two filters. *)
Definition entries_of (names : list str) (ignore_hidden ignore_git : bool) : list str :=
  let entries := Py.sorted names in
  let entries :=
    if ignore_hidden
    then filter (fun e => negb (Py.startswith e (lit "."))) entries
    else entries in
  if ignore_git
  then filter (fun e => negb (Py.str_eqb e (lit ".git"))) entries
  else entries.

(** The values of [files], [dirs] and [all_entries]. *)
Definition files_of (child : str -> node) (entries : list str) : list str :=
  filter (fun entry => negb (os_path_isdir (child entry))) entries.

Definition dirs_of (child : str -> node) (entries : list str) : list str :=
  filter (fun entry => os_path_isdir (child entry)) entries.

Definition all_entries_of (child : str -> node) (names : list str)
  (ignore_hidden ignore_git : bool) : list str :=
  let entries := entries_of names ignore_hidden ignore_git in
  files_of child entries ++ dirs_of child entries.

(** ** Vocabulary of the specification *)

(** A special character: not ASCII, or a control character. *)
Definition special (c : char) : Prop := (127 < ord c)%Z \/ (ord c < 32)%Z.

Definition special_name (name : str) : Prop := Exists special name.

(** The connector glyphs and the two ways a prefix is extended. *)
Definition branch_glyph : str := [9500; 9472; 9472; 32]%N.
Definition last_glyph : str := [9492; 9472; 9472; 32]%N.
Definition glyph (last : bool) : str := if last then last_glyph else branch_glyph.

Definition four_spaces : str := [32; 32; 32; 32]%N.
Definition continuation : str := [9474; 32; 32; 32]%N.
Definition indent (last : bool) : str := if last then four_spaces else continuation.

(** The trailing separator of a directory. *)
Definition separator : char := 47%N.
Definition dir_suffix (is_dir : bool) : str := if is_dir then [separator] else [].

(** Uppercase hexadecimal digits and the number they write. *)
Definition upper_hex_digit (d : char) : Prop :=
  (48 <= d <= 57)%N \/ (65 <= d <= 70)%N.

Definition hex_digit_value (d : char) : N :=
  if (d <? 58)%N then (d - 48)%N else (d - 55)%N.

Definition hex_value (ds : str) : N :=
  fold_left (fun acc d => (16 * acc + hex_digit_value d)%N) ds 0%N.

(** [t] is the token [U+XXXX] of the character [c]: uppercase hexadecimal
    digits that write [c], at least four of them, and with no leading zero
    beyond the fourth digit. *)
Definition is_codepoint_token (c : char) (t : str) : Prop :=
  exists ds,
    t = lit "U+" ++ ds /\
    Forall upper_hex_digit ds /\
    hex_value ds = c /\
    4 <= length ds /\
    (4 < length ds -> hd 48%N ds <> 48%N).

(** The bracketed, space-separated list of tokens. *)
Definition bracketed (tokens : list str) : str :=
  lit " [" ++ Py.join (lit " ") tokens ++ lit "]".

(** Whether [i] is the last index of a listing of [n] entries. *)
Definition is_last_index (n i : nat) : bool := Nat.eqb (S i) n.

(** [indexed_from s l] pairs each element with its index, counting from [s]. *)
Definition indexed_from {A : Type} (s : nat) (l : list A) : list (nat * A) :=
  combine (seq s (length l)) l.

Definition indexed {A : Type} (l : list A) : list (nat * A) := indexed_from 0 l.

(** The value of [has_special] for an entry. *)
Definition has_special (entry : str) : bool :=
  existsb (fun c => (127 <? ord c)%Z || (ord c <? 32)%Z) entry.

(** The line [print_tree] writes for an entry: prefix, connector, the name
    bare or annotated, and the separator of a directory. *)
Definition entry_line (isprintable : char -> bool) (prefix : str) (last : bool)
  (entry : str) (is_dir : bool) : str :=
  prefix ++ glyph last
  ++ (if has_special entry then filename_with_codepoints isprintable entry else entry)
  ++ dir_suffix is_dir.

(** What [print_tree] writes for the entry at index [i] of a listing of [n]
    entries: its line and, for a directory, the lines of the call on it. *)
Definition block (isprintable : char -> bool) (ignore_hidden ignore_git : bool)
  (child : str -> node) (prefix : str) (n i : nat) (entry : str) : list str :=
  let last := is_last_index n i in
  entry_line isprintable prefix last entry (os_path_isdir (child entry))
  :: (if os_path_isdir (child entry)
      then output (print_tree isprintable (child entry) (prefix ++ indent last)
                     ignore_hidden ignore_git)
      else []).

(** The placeholder line of a directory that may not be listed. *)
Definition denied_line (prefix : str) : str := prefix ++ lit "[Permission Denied]".

(** How many iterations of a loop start: all of them, or those up to and
    including the first that raises. *)
Fixpoint started {A : Type} (body : A -> IO unit) (l : list A) : nat :=
  match l with
  | [] => 0
  | x :: rest =>
      match result (body x) with
      | Return _ => S (started body rest)
      | Raise _ => 1
      end
  end.

(** The first exception of a sequence of calls, if any. *)
Fixpoint first_raise (l : list (option exn)) : option exn :=
  match l with
  | [] => None
  | Some e :: _ => Some e
  | None :: rest => first_raise rest
  end.

(** The exception that ends a run of [print_tree] on [root], if any: the first
    listing on the way that fails for another reason than permission. *)
Fixpoint uncaught (root : node) (ignore_hidden ignore_git : bool) : option exn :=
  match root with
  | File => Some NotADirectoryError
  | Missing => Some FileNotFoundError
  | Dir (Raise PermissionError) _ => None
  | Dir (Raise e) _ => Some e
  | Dir (Return names) child =>
      first_raise
        (map (fun entry => uncaught (child entry) ignore_hidden ignore_git)
           (dirs_of child (entries_of names ignore_hidden ignore_git)))
  end.

(** The names that survive the filters. *)
Definition survives (ignore_hidden ignore_git : bool) (e : str) : bool :=
  (if ignore_hidden then negb (Py.startswith e (lit ".")) else true)
  && (if ignore_git then negb (Py.str_eqb e (lit ".git")) else true).

(** The entries a traversal from [root] reaches: the names of a directory
    that can be listed which survive the filters, and what lies below each
    of them. *)
Fixpoint reachable_entries (root : node) (ignore_hidden ignore_git : bool) : nat :=
  match root with
  | Dir (Return names) child =>
      list_sum
        (map (fun entry => S (reachable_entries (child entry) ignore_hidden ignore_git))
           (filter (survives ignore_hidden ignore_git) names))
  | _ => 0
  end.

(** How a call ends when [r] is the exception it meets, if any. *)
Definition outcome_of (r : option exn) : outcome unit :=
  match r with
  | None => Return tt
  | Some e => Raise e
  end.

(** An entry line carries a connector, whose horizontal stroke no prefix
    built by [print_tree] contains. *)
Definition stroke : char := 9472%N.
Definition is_entry_line (line : str) : bool := existsb (N.eqb stroke) line.

(** The order of [sorted] on names. *)
Definition str_le (a b : str) : Prop := Py.str_leb a b = true.

(** A character [repr] leaves as it is, unless it is the enclosing quote. *)
Definition unescaped (isprintable : char -> bool) (c : char) : Prop :=
  (c <> 92 /\ 32 <= c /\ c <> 127 /\ (127 < c -> isprintable c = true))%N.

(** ** A sample tree *)

(** The table of printable characters over Latin-1: the signs and letters
    from U+00A1 to U+00FF but the soft hyphen.  The examples use it, and no
    character beyond U+00FF that is printable. *)
Definition latin1_printable (c : char) : bool :=
  ((161 <=? c) && (c <=? 255) && negb (c =? 173))%N.

Definition empty_dir : node := Dir (Return []) (fun _ => Missing).

Definition locked_dir : node := Dir (Raise PermissionError) (fun _ => Missing).

(** A file with a zero-width space in its name, and a directory that may
    not be listed. *)
Definition sample_sub : node :=
  Dir (Return [lit "nested.txt"; [119; 8203; 110]%N; lit "locked"])
    (fun e => if Py.str_eqb e (lit "locked") then locked_dir else File).

Definition sample_names : list str :=
  [lit "b.txt"; lit "sub"; lit ".git"; lit "a.txt"; [233%N]].

Definition sample_child (e : str) : node :=
  if Py.str_eqb e (lit "sub") then sample_sub
  else if Py.str_eqb e (lit ".git") then empty_dir
  else File.

Definition sample_root : node := Dir (Return sample_names) sample_child.

(** A file and two directories whose listing fails for another reason than
    permission. *)
Definition failing_tree : node :=
  Dir (Return [lit "a"; lit "d"; lit "z"])
    (fun e => if Py.str_eqb e (lit "a") then File
              else Dir (Raise OSError) (fun _ => Missing)).

(** ** Vocabulary of the further properties *)

(** Printable ASCII other than the path separator. *)
Definition plain (c : char) : Prop := (32 <= c < 127)%N /\ c <> separator.

(** A string without a character below U+0020. *)
Definition control_free (s : str) : Prop := Forall (fun c => (32 <= c)%N) s.

(** The characters of a token: the letter, the sign and the digits, none of
    them a space or a bracket. *)
Definition token_char (c : char) : Prop := (43 <= c <= 85)%N.

(** Two trees with the same names in every listing, in whatever order, and
    the same nodes at those names. *)
Inductive same_listing : node -> node -> Prop :=
| same_File : same_listing File File
| same_Missing : same_listing Missing Missing
| same_failed (e : exn) (child child' : str -> node) :
    same_listing (Dir (Raise e) child) (Dir (Raise e) child')
| same_listed (names names' : list str) (child child' : str -> node) :
    Permutation names names' ->
    (forall entry, In entry names -> same_listing (child entry) (child' entry)) ->
    same_listing (Dir (Return names) child) (Dir (Return names') child').

(** The directories a traversal from [root] reaches and may not list. *)
Fixpoint denied_reached (root : node) (ignore_hidden ignore_git : bool) : nat :=
  match root with
  | Dir (Raise PermissionError) _ => 1
  | Dir (Return names) child =>
      list_sum
        (map (fun entry => denied_reached (child entry) ignore_hidden ignore_git)
           (filter (survives ignore_hidden ignore_git) names))
  | _ => 0
  end.

(** * Properties *)

(** ** Hexadecimal formatting *)

Section HexFacts.

Local Open Scope N_scope.

Lemma size_nat_bound (n : N) : n < 2 ^ N.of_nat (N.size_nat n).
Proof.
  destruct n as [|p]; [reflexivity|].
  simpl N.size_nat.
  induction p as [p IH|p IH|]; simpl Pos.size_nat;
    rewrite ?Nat2N.inj_succ, ?N.pow_succ_r'; lia.
Qed.

Lemma hex_digit_upper (d : N) : d < 16 -> upper_hex_digit (Py.hex_digit true d).
Proof.
  intros Hd. unfold upper_hex_digit, Py.hex_digit.
  destruct (N.ltb_spec d 10); lia.
Qed.

Lemma hex_digit_value_digit (d : N) :
  d < 16 -> hex_digit_value (Py.hex_digit true d) = d.
Proof.
  intros Hd. unfold hex_digit_value, Py.hex_digit.
  destruct (N.ltb_spec d 10).
  - destruct (N.ltb_spec (48 + d) 58); lia.
  - destruct (N.ltb_spec (55 + d) 58); lia.
Qed.

Lemma hex_digit_zero (d : N) : d < 16 -> Py.hex_digit true d = 48 -> d = 0.
Proof.
  unfold Py.hex_digit. destruct (N.ltb_spec d 10); lia.
Qed.

Lemma hex_loop_acc (fuel : nat) (upper : bool) (n : N) (acc : str) :
  Py.hex_loop fuel upper n acc = Py.hex_loop fuel upper n [] ++ acc.
Proof.
  revert n acc. induction fuel as [|fuel IH]; intros n acc; simpl; [reflexivity|].
  destruct (n =? 0); [reflexivity|].
  rewrite IH. rewrite (IH _ [_]). rewrite <- app_assoc. reflexivity.
Qed.

Lemma hex_value_snoc (ds : str) (d : char) :
  hex_value (ds ++ [d]) = 16 * hex_value ds + hex_digit_value d.
Proof. unfold hex_value. rewrite fold_left_app. reflexivity. Qed.

(** With enough fuel the loop writes [n]: digits only, most significant
    first, the first one not a zero. *)
Lemma hex_loop_spec (fuel : nat) (n : N) :
  n < 2 ^ N.of_nat fuel ->
  let ds := Py.hex_loop fuel true n [] in
  Forall upper_hex_digit ds /\ hex_value ds = n /\
  (n <> 0 -> ds <> [] /\ hd 48 ds <> 48).
Proof.
  revert n. induction fuel as [|fuel IH]; intros n Hn; simpl.
  - simpl in Hn. assert (n = 0) by lia. subst. repeat split; auto; congruence.
  - destruct (N.eqb_spec n 0) as [->|Hnz].
    + repeat split; auto; congruence.
    + rewrite hex_loop_acc.
      assert (Hq : n / 16 < 2 ^ N.of_nat fuel).
      { rewrite Nat2N.inj_succ, N.pow_succ_r' in Hn.
        apply N.Div0.div_lt_upper_bound. lia. }
      assert (Hr : n mod 16 < 16) by (apply N.mod_lt; lia).
      destruct (IH _ Hq) as (Hall & Hval & Hhd).
      split; [|split].
      * apply Forall_app; split; [exact Hall|].
        constructor; [apply hex_digit_upper; exact Hr|constructor].
      * rewrite hex_value_snoc, Hval, hex_digit_value_digit by exact Hr.
        symmetry. apply N.div_mod. lia.
      * intros _. destruct (N.eqb_spec (n / 16) 0) as [Hz|Hz].
        -- destruct fuel; simpl; rewrite ?Hz; simpl;
             (split; [discriminate|]);
             intros H0; apply hex_digit_zero in H0; try exact Hr;
             pose proof (N.div_mod n 16); lia.
        -- destruct (Hhd Hz) as [Hne Hh].
           destruct (Py.hex_loop fuel true (n / 16) []); [congruence|].
           split; [discriminate|exact Hh].
Qed.

Lemma hex_spec (n : N) :
  let ds := Py.hex true n in
  Forall upper_hex_digit ds /\ hex_value ds = n /\ ds <> [] /\
  ((1 < length ds)%nat -> hd 48 ds <> 48).
Proof.
  unfold Py.hex. destruct (N.eqb_spec n 0) as [->|Hnz].
  - split; [|split; [|split]].
    + constructor; [unfold upper_hex_digit; lia|constructor].
    + reflexivity.
    + discriminate.
    + simpl. lia.
  - destruct (hex_loop_spec (N.size_nat n) (size_nat_bound n)) as (Hall & Hval & Hhd).
    destruct (Hhd Hnz). auto.
Qed.

Lemma hex_value_zeros (k : nat) (ds : str) :
  hex_value (repeat 48 k ++ ds) = hex_value ds.
Proof.
  unfold hex_value. rewrite fold_left_app.
  replace (fold_left _ (repeat 48 k) 0) with 0; [reflexivity|].
  induction k as [|k IH]; simpl; auto.
Qed.

Lemma zfill_length (w : nat) (s : str) :
  length (Py.zfill w s) = Nat.max w (length s).
Proof.
  unfold Py.zfill. rewrite length_app, repeat_length.
  unfold str, char in *.
  destruct (Nat.max_spec w (length s)) as [[? ->]|[? ->]]; lia.
Qed.

Lemma zfill_long (w : nat) (s : str) :
  (w <= length s)%nat -> Py.zfill w s = s.
Proof.
  intros H. unfold Py.zfill, str, char in *.
  replace (w - length s)%nat with 0%nat by lia. reflexivity.
Qed.

End HexFacts.

(** ** A character has one token *)

Section TokenUnique.

Local Open Scope N_scope.

Lemma hex_value_acc (ds : str) (a : N) :
  fold_left (fun acc d => 16 * acc + hex_digit_value d) ds a =
    a * 16 ^ N.of_nat (length ds) + hex_value ds.
Proof.
  unfold hex_value. revert a. induction ds as [|d ds IH]; intros a.
  - simpl. lia.
  - cbn [fold_left length]. rewrite IH, (IH (16 * 0 + hex_digit_value d)).
    rewrite Nat2N.inj_succ, N.pow_succ_r'. lia.
Qed.

Lemma hex_value_cons (d : char) (ds : str) :
  hex_value (d :: ds) = hex_digit_value d * 16 ^ N.of_nat (length ds) + hex_value ds.
Proof.
  unfold hex_value at 1. cbn [fold_left]. rewrite hex_value_acc. lia.
Qed.

Lemma hex_digit_value_lt (d : char) : upper_hex_digit d -> hex_digit_value d < 16.
Proof.
  unfold upper_hex_digit, hex_digit_value. destruct (N.ltb_spec d 58); lia.
Qed.

Lemma hex_digit_value_inj (d d' : char) :
  upper_hex_digit d -> upper_hex_digit d' ->
  hex_digit_value d = hex_digit_value d' -> d = d'.
Proof.
  unfold upper_hex_digit, hex_digit_value.
  destruct (N.ltb_spec d 58), (N.ltb_spec d' 58); lia.
Qed.

Lemma hex_value_lt (ds : str) :
  Forall upper_hex_digit ds -> hex_value ds < 16 ^ N.of_nat (length ds).
Proof.
  induction 1 as [|d ds Hd _ IH]; [reflexivity|].
  rewrite hex_value_cons. cbn [length].
  rewrite Nat2N.inj_succ, N.pow_succ_r'.
  apply hex_digit_value_lt in Hd. nia.
Qed.

Lemma hex_value_inj (ds ds' : str) :
  Forall upper_hex_digit ds -> Forall upper_hex_digit ds' ->
  length ds = length ds' -> hex_value ds = hex_value ds' -> ds = ds'.
Proof.
  intros H. revert ds'. induction H as [|d ds Hd Hds IH]; intros ds' H' Hlen Hval.
  - destruct ds'; [reflexivity|discriminate].
  - destruct H' as [|d' ds' Hd' Hds']; [discriminate|].
    injection Hlen as Hlen. rewrite !hex_value_cons, <- Hlen in Hval.
    pose proof (hex_value_lt Hds) as B. pose proof (hex_value_lt Hds') as B'.
    rewrite <- Hlen in B'.
    destruct (N.div_mod_unique (16 ^ N.of_nat (length ds))
                (hex_digit_value d) (hex_digit_value d')
                (hex_value ds) (hex_value ds') B B') as [Eq Er]; [lia|].
    f_equal; [apply hex_digit_value_inj; assumption|apply IH; assumption].
Qed.

Lemma hex_value_leading (ds : str) :
  Forall upper_hex_digit ds -> ds <> [] -> hd 48 ds <> 48 ->
  16 ^ N.of_nat (pred (length ds)) <= hex_value ds.
Proof.
  intros H Hne Hhd. destruct H as [|d ds Hd Hds]; [congruence|].
  simpl in Hhd. rewrite hex_value_cons. cbn [length pred].
  assert (1 <= hex_digit_value d).
  { unfold upper_hex_digit, hex_digit_value in *.
    destruct (N.ltb_spec d 58); lia. }
  nia.
Qed.

(** Of two canonical writings of one number the longer would be too big. *)
Lemma canonical_length (ds ds' : str) :
  Forall upper_hex_digit ds -> Forall upper_hex_digit ds' ->
  hex_value ds = hex_value ds' ->
  (4 <= length ds)%nat -> ((4 < length ds')%nat -> hd 48 ds' <> 48) ->
  (length ds' <= length ds)%nat.
Proof.
  intros H H' Hval Hlen Hhd.
  destruct (Nat.le_gt_cases (length ds') (length ds)) as [|Hlt]; [assumption|].
  exfalso.
  assert (Hne : ds' <> []) by (intros ->; simpl in Hlt; lia).
  pose proof (hex_value_leading H' Hne (Hhd ltac:(lia))) as Hlow.
  pose proof (hex_value_lt H) as Hup.
  assert (16 ^ N.of_nat (length ds) <= 16 ^ N.of_nat (pred (length ds'))).
  { apply N.pow_le_mono_r; lia. }
  lia.
Qed.

Lemma token_unique (c : char) (t t' : str) :
  is_codepoint_token c t -> is_codepoint_token c t' -> t = t'.
Proof.
  intros (ds & -> & H & V & L & Z) (ds' & -> & H' & V' & L' & Z').
  f_equal. apply hex_value_inj; try assumption; [|congruence].
  apply Nat.le_antisymm; apply canonical_length; try assumption; congruence.
Qed.

End TokenUnique.

(** ** Codepoint tokens *)

Lemma format_04X_ord (c : char) :
  Py.format_04X (ord c) = Py.zfill 4 (Py.hex true c).
Proof.
  unfold Py.format_04X, ord.
  destruct (Z.ltb_spec (Z.of_N c) 0) as [H|H]; [lia|].
  rewrite N2Z.id. reflexivity.
Qed.

Lemma zfill_hex_token (c : char) :
  is_codepoint_token c (lit "U+" ++ Py.zfill 4 (Py.hex true c)).
Proof.
  destruct (hex_spec c) as (Hall & Hval & Hne & Hhd).
  exists (Py.zfill 4 (Py.hex true c)). split; [reflexivity|].
  split; [|split; [|split]].
  - unfold Py.zfill. apply Forall_app. split; [|exact Hall].
    apply Forall_forall. intros d Hd. apply repeat_spec in Hd. subst d.
    unfold upper_hex_digit. lia.
  - unfold Py.zfill. rewrite hex_value_zeros. exact Hval.
  - rewrite zfill_length. apply Nat.le_max_l.
  - rewrite zfill_length. intros Hlen.
    assert (Hlong : 4 < length (Py.hex true c)).
    { destruct (Nat.max_spec 4 (length (Py.hex true c))) as [[? E]|[? E]];
        rewrite E in Hlen; lia. }
    rewrite zfill_long by lia. apply Hhd. lia.
Qed.

Lemma char_to_codepoint_eq (c : char) :
  char_to_codepoint c = lit "U+" ++ Py.zfill 4 (Py.hex true c).
Proof.
  unfold char_to_codepoint. rewrite format_04X_ord.
  destruct (ord c <? 256)%Z; reflexivity.
Qed.

Lemma codepoints_tokens (name : str) :
  Forall2 is_codepoint_token name (map char_to_codepoint name).
Proof.
  induction name as [|c name IH]; simpl; constructor; [|exact IH].
  rewrite char_to_codepoint_eq. apply zfill_hex_token.
Qed.

(** A token determines its character, so a list of tokens determines the
    name it was made from. *)
Lemma token_char_unique (c c' : char) (t : str) :
  is_codepoint_token c t -> is_codepoint_token c' t -> c = c'.
Proof.
  intros (ds & E & _ & V & _) (ds' & E' & _ & V' & _).
  rewrite E in E'. apply app_inv_head in E'. congruence.
Qed.

(** ** Standard output: sequencing and loops *)

Lemma output_bind {A B : Type} (m : IO A) (k : A -> IO B) :
  output (bind m k) =
    output m ++ match result m with Return a => output (k a) | Raise _ => [] end.
Proof.
  unfold bind. destruct (result m); simpl; [reflexivity|].
  rewrite app_nil_r. reflexivity.
Qed.

Lemma result_bind {A B : Type} (m : IO A) (k : A -> IO B) :
  result (bind m k) =
    match result m with Return a => result (k a) | Raise e => Raise e end.
Proof. unfold bind. destruct (result m); reflexivity. Qed.

Lemma output_for {A : Type} (body : A -> IO unit) (l : list A) :
  output (for_ body l) =
    concat (map (fun x => output (body x)) (firstn (started body l) l)).
Proof.
  induction l as [|x l IH]; [reflexivity|].
  simpl. rewrite output_bind.
  destruct (result (body x)); simpl.
  - rewrite IH. reflexivity.
  - rewrite app_nil_r. reflexivity.
Qed.

Lemma started_le {A : Type} (body : A -> IO unit) (l : list A) :
  started body l <= length l.
Proof.
  induction l as [|x l IH]; simpl; [lia|].
  destruct (result (body x)); lia.
Qed.

Lemma result_for {A : Type} (body : A -> IO unit) (l : list A) :
  result (for_ body l) =
    match first_raise (map (fun x => match result (body x) with
                                     | Return _ => None
                                     | Raise e => Some e
                                     end) l) with
    | None => Return tt
    | Some e => Raise e
    end.
Proof.
  induction l as [|x l IH]; [reflexivity|].
  simpl. rewrite result_bind.
  destruct (result (body x)); [exact IH|reflexivity].
Qed.

Lemma started_all {A : Type} (body : A -> IO unit) (l : list A) :
  result (for_ body l) = Return tt -> started body l = length l.
Proof.
  induction l as [|x l IH]; [reflexivity|].
  simpl. rewrite result_bind.
  destruct (result (body x)); [|discriminate].
  intros H. rewrite (IH H). reflexivity.
Qed.

Lemma for_app {A : Type} (body : A -> IO unit) (l1 l2 : list A) :
  for_ body (l1 ++ l2) = for_ body l1 ;; for_ body l2.
Proof.
  induction l1 as [|x l1 IH]; simpl.
  - unfold bind. simpl. destruct (for_ body l2). reflexivity.
  - rewrite IH. unfold bind. simpl.
    destruct (body x) as [o [u|e]]; simpl; [|reflexivity].
    destruct (for_ body l1) as [o1 [u1|e1]]; simpl; [|reflexivity].
    rewrite app_assoc. reflexivity.
Qed.

(** ** Indexed lists *)

Lemma is_last_index_Z {A : Type} (l : list A) (i : nat) :
  (Z.of_nat i =? Py.len l - 1)%Z = is_last_index (length l) i.
Proof.
  unfold Py.len, is_last_index.
  destruct (Nat.eqb_spec (S i) (length l)); [apply Z.eqb_eq|apply Z.eqb_neq]; lia.
Qed.

Lemma enumerate_from_indexed {A : Type} (s : nat) (l : list A) :
  Py.enumerate_from (Z.of_nat s) l =
    map (fun ie => (Z.of_nat (fst ie), snd ie)) (indexed_from s l).
Proof.
  revert s. induction l as [|x l IH]; intros s; [reflexivity|].
  unfold indexed_from in *. simpl. f_equal.
  rewrite <- IH. f_equal. lia.
Qed.

Lemma enumerate_indexed {A : Type} (l : list A) :
  Py.enumerate l = map (fun ie => (Z.of_nat (fst ie), snd ie)) (indexed l).
Proof. exact (enumerate_from_indexed 0 l). Qed.

Lemma indexed_from_app {A : Type} (s : nat) (l1 l2 : list A) :
  indexed_from s (l1 ++ l2) = indexed_from s l1 ++ indexed_from (s + length l1) l2.
Proof.
  revert s. induction l1 as [|x l1 IH]; intros s; simpl.
  - rewrite Nat.add_0_r. reflexivity.
  - unfold indexed_from in *. simpl. f_equal.
    rewrite IH. f_equal. f_equal; f_equal; lia.
Qed.

Lemma indexed_from_length {A : Type} (s : nat) (l : list A) :
  length (indexed_from s l) = length l.
Proof. unfold indexed_from. rewrite length_combine, length_seq. lia. Qed.

Lemma indexed_from_snd {A : Type} (s : nat) (l : list A) :
  map snd (indexed_from s l) = l.
Proof.
  revert s. induction l as [|x l IH]; intros s; [reflexivity|].
  unfold indexed_from in *. simpl. rewrite IH. reflexivity.
Qed.

Lemma indexed_from_nth {A : Type} (s : nat) (l : list A) (i : nat) (x : A) :
  nth_error l i = Some x <-> In (s + i, x) (indexed_from s l).
Proof.
  revert s i. induction l as [|y l IH]; intros s i.
  - destruct i; simpl; split; intros H; try discriminate; contradiction.
  - unfold indexed_from in *. simpl. split.
    + destruct i as [|i]; simpl.
      * intros [= ->]. left. f_equal. lia.
      * intros H. right. apply (IH (S s) i) in H.
        replace (s + S i) with (S s + i) by lia. exact H.
    + intros [[= Hs ->]|H].
      * assert (i = 0) by lia. subst. reflexivity.
      * destruct i as [|i].
        -- apply in_combine_l, in_seq in H. lia.
        -- simpl. apply (IH (S s) i).
           replace (S s + i) with (s + S i) by lia. exact H.
Qed.

Lemma indexed_nth {A : Type} (l : list A) (i : nat) (x : A) :
  nth_error l i = Some x <-> In (i, x) (indexed l).
Proof. exact (indexed_from_nth 0 l i x). Qed.

Lemma enumerate_from_snd {A : Type} (s : Z) (l : list A) :
  map snd (Py.enumerate_from s l) = l.
Proof.
  revert s. induction l as [|x l IH]; intros s; [reflexivity|].
  simpl. rewrite IH. reflexivity.
Qed.

Lemma enumerate_length {A : Type} (l : list A) :
  length (Py.enumerate l) = length l.
Proof.
  rewrite <- (enumerate_from_snd 0 l) at 2. rewrite length_map. reflexivity.
Qed.

(** ** Exceptions of a sequence of calls *)

Lemma first_raise_app (l1 l2 : list (option exn)) :
  Forall (eq None) l1 -> first_raise (l1 ++ l2) = first_raise l2.
Proof.
  induction 1 as [|x l1 Hx _ IH]; [reflexivity|].
  subst x. exact IH.
Qed.

Lemma first_raise_In (l : list (option exn)) (e : exn) :
  first_raise l = Some e -> In (Some e) l.
Proof.
  induction l as [|[x|] l IH]; simpl; [discriminate| |].
  - intros [= ->]. left. reflexivity.
  - intros H. right. exact (IH H).
Qed.

Lemma first_raise_None (l : list (option exn)) :
  first_raise l = None <-> Forall (eq None) l.
Proof.
  induction l as [|[x|] l IH]; simpl.
  - split; auto.
  - split; [discriminate|]. intros H. inversion H. discriminate.
  - rewrite IH. split; [auto|]. intros H. inversion H. assumption.
Qed.

(** ** The order of a listing *)

Lemma str_leb_trans (a b c : str) :
  Py.str_leb a b = true -> Py.str_leb b c = true -> Py.str_leb a c = true.
Proof.
  revert b c. induction a as [|x a IH]; intros [|y b] [|z c]; simpl; auto;
    try discriminate.
  destruct (N.ltb_spec x y), (N.ltb_spec y x), (N.ltb_spec y z), (N.ltb_spec z y),
    (N.ltb_spec x z), (N.ltb_spec z x); try discriminate; try lia; auto.
  apply IH.
Qed.

Lemma sorted_strongly (l : list str) : StronglySorted str_le (Py.sorted l).
Proof.
  apply Py.StrSort.StronglySorted_sort.
  intros a b c. apply str_leb_trans.
Qed.

Lemma sorted_permutation (l : list str) : Permutation l (Py.sorted l).
Proof. apply Py.StrSort.Permuted_sort. Qed.

Lemma StronglySorted_filter {A : Type} (R : A -> A -> Prop) (p : A -> bool)
  (l : list A) :
  StronglySorted R l -> StronglySorted R (filter p l).
Proof.
  induction 1 as [|x l _ IH Hx]; simpl; [constructor|].
  destruct (p x); [|exact IH].
  constructor; [exact IH|].
  apply Forall_forall. intros y Hy. apply filter_In in Hy.
  rewrite Forall_forall in Hx. apply Hx, Hy.
Qed.

Lemma entries_sorted (names : list str) (ignore_hidden ignore_git : bool) :
  StronglySorted str_le (entries_of names ignore_hidden ignore_git).
Proof.
  unfold entries_of.
  destruct ignore_hidden, ignore_git;
    repeat apply StronglySorted_filter; apply sorted_strongly.
Qed.

Lemma filter_twice {A : Type} (p q : A -> bool) (l : list A) :
  filter q (filter p l) = filter (fun x => p x && q x) l.
Proof.
  induction l as [|x l IH]; [reflexivity|].
  simpl. destruct (p x); simpl; [|exact IH].
  destruct (q x); rewrite IH; reflexivity.
Qed.

Lemma filter_permutation {A : Type} (p : A -> bool) (l l' : list A) :
  Permutation l l' -> Permutation (filter p l) (filter p l').
Proof.
  induction 1 as [|x l l' _ IH|x y l|l l' l'' _ IH1 _ IH2]; simpl.
  - constructor.
  - destruct (p x); [constructor|]; exact IH.
  - destruct (p x), (p y); try reflexivity. constructor.
  - exact (Permutation_trans IH1 IH2).
Qed.

Lemma entries_survivors (names : list str) (ignore_hidden ignore_git : bool) :
  Permutation (entries_of names ignore_hidden ignore_git)
    (filter (survives ignore_hidden ignore_git) names).
Proof.
  assert (H : entries_of names ignore_hidden ignore_git =
              filter (survives ignore_hidden ignore_git) (Py.sorted names)).
  { unfold entries_of, survives.
    destruct ignore_hidden, ignore_git; rewrite ?filter_twice.
    - reflexivity.
    - apply filter_ext. intros e. rewrite andb_true_r. reflexivity.
    - reflexivity.
    - symmetry. apply forallb_filter_id. apply forallb_forall. reflexivity. }
  rewrite H. apply filter_permutation. symmetry. apply sorted_permutation.
Qed.

Lemma partition_permutation {A : Type} (p : A -> bool) (l : list A) :
  Permutation (filter (fun x => negb (p x)) l ++ filter p l) l.
Proof.
  induction l as [|x l IH]; [constructor|].
  simpl. destruct (p x); simpl.
  - apply Permutation_sym, Permutation_cons_app, Permutation_sym, IH.
  - constructor. exact IH.
Qed.

Lemma list_sum_map_permutation {A : Type} (f : A -> nat) (l l' : list A) :
  Permutation l l' -> list_sum (map f l) = list_sum (map f l').
Proof.
  induction 1 as [|x l l' _ IH|x y l|l l' l'' _ IH1 _ IH2]; simpl; lia.
Qed.

(** ** The two filters *)

Lemma str_eqb_eq (a b : str) : Py.str_eqb a b = true -> a = b.
Proof.
  revert b. induction a as [|x a IH]; intros [|y b]; simpl; try discriminate; auto.
  intros H. apply andb_true_iff in H. destruct H as [Hx Hab].
  apply N.eqb_eq in Hx. subst. f_equal. apply IH. exact Hab.
Qed.

(** The name [.git] starts with a dot. *)
Lemma git_is_hidden (e : str) :
  negb (Py.startswith e (lit ".")) = true ->
  negb (Py.str_eqb e (lit ".git")) = true.
Proof.
  intros H. destruct (Py.str_eqb e (lit ".git")) eqn:E; [|reflexivity].
  apply str_eqb_eq in E. subst e. discriminate.
Qed.

Lemma entries_hidden_git (names : list str) :
  entries_of names true true = entries_of names true false.
Proof.
  unfold entries_of. apply forallb_filter_id, forallb_forall.
  intros e He. apply filter_In in He. apply git_is_hidden, He.
Qed.

Lemma for_ext {A : Type} (f g : A -> IO unit) (l : list A) :
  (forall x, f x = g x) -> for_ f l = for_ g l.
Proof.
  intros H. induction l as [|x l IH]; [reflexivity|].
  simpl. rewrite H, IH. reflexivity.
Qed.

(** ** The loop of print_tree *)

Section Traversal.

Variable isprintable : char -> bool.
Variables ignore_hidden ignore_git : bool.

Local Abbreviation walk root prefix :=
  (print_tree isprintable root prefix ignore_hidden ignore_git).
Local Abbreviation step := (visit isprintable).
Local Abbreviation blk := (block isprintable ignore_hidden ignore_git).

(** On a directory that can be listed, [print_tree] runs its loop over
    [all_entries]. *)
Lemma print_tree_listed (names : list str) (child : str -> node) (prefix : str) :
  walk (Dir (Return names) child) prefix =
    for_ (step child prefix ignore_hidden ignore_git
            (Py.len (all_entries_of child names ignore_hidden ignore_git)))
         (Py.enumerate (all_entries_of child names ignore_hidden ignore_git)).
Proof. reflexivity. Qed.

(** [print_tree] as the source reads: the listing of [os.listdir], with
    [PermissionError] caught and every other exception left to the caller,
    and the names resolved by [os.path.join]. *)
Lemma print_tree_listdir (root : node) (prefix : str) :
  walk root prefix =
    match os_listdir root with
    | Raise PermissionError => print (prefix ++ lit "[Permission Denied]")
    | Raise e => raise e
    | Return names =>
        let all := all_entries_of (os_path_join root) names ignore_hidden ignore_git in
        for_ (step (os_path_join root) prefix ignore_hidden ignore_git (Py.len all))
          (Py.enumerate all)
    end.
Proof. destruct root as [| |[names|[]] child]; reflexivity. Qed.

Lemma has_special_iff (entry : str) :
  has_special entry = true <-> special_name entry.
Proof.
  unfold has_special, special_name, special.
  rewrite existsb_exists, Exists_exists.
  split; intros (c & Hin & Hc); exists c; split; auto.
  - apply orb_true_iff in Hc. destruct Hc as [Hc|Hc]; [left|right];
      apply Z.ltb_lt; exact Hc.
  - apply orb_true_iff. destruct Hc as [Hc|Hc]; [left|right];
      apply Z.ltb_lt; exact Hc.
Qed.

(** One iteration writes the entry's line and then, for a directory, what
    the recursive call writes under the extended prefix. *)
Lemma output_visit (child : str -> node) (prefix : str) (n i : Z) (entry : str) :
  output (step child prefix ignore_hidden ignore_git n (i, entry)) =
    entry_line isprintable prefix (i =? n - 1)%Z entry (os_path_isdir (child entry))
    :: (if os_path_isdir (child entry)
        then output (walk (child entry) (prefix ++ indent (i =? n - 1)%Z))
        else []).
Proof.
  unfold visit, entry_line. fold (has_special entry).
  rewrite output_bind.
  destruct (has_special entry), (os_path_isdir (child entry)), (i =? n - 1)%Z;
    reflexivity.
Qed.

Lemma result_visit (child : str -> node) (prefix : str) (n i : Z) (entry : str) :
  result (step child prefix ignore_hidden ignore_git n (i, entry)) =
    if os_path_isdir (child entry)
    then result (walk (child entry) (prefix ++ indent (i =? n - 1)%Z))
    else Return tt.
Proof.
  unfold visit. fold (has_special entry).
  rewrite result_bind.
  destruct (has_special entry), (os_path_isdir (child entry)), (i =? n - 1)%Z;
    reflexivity.
Qed.

Lemma output_visit_block {A : Type} (all : list A) (child : str -> node)
  (prefix : str) (i : nat) (entry : str) :
  output (step child prefix ignore_hidden ignore_git (Py.len all) (Z.of_nat i, entry)) =
    blk child prefix (length all) i entry.
Proof. rewrite output_visit, is_last_index_Z. reflexivity. Qed.

(** The output of a listing is the blocks of the entries the loop reached. *)
Lemma output_listed (names : list str) (child : str -> node) (prefix : str) :
  let all := all_entries_of child names ignore_hidden ignore_git in
  let k := started (step child prefix ignore_hidden ignore_git (Py.len all))
             (Py.enumerate all) in
  output (walk (Dir (Return names) child) prefix) =
    concat (map (fun ie => blk child prefix (length all) (fst ie) (snd ie))
              (firstn k (indexed all))).
Proof.
  intros all k. rewrite print_tree_listed, output_for. fold all. fold k.
  rewrite enumerate_indexed, firstn_map, map_map. f_equal.
  apply map_ext. intros [i e]. simpl. apply output_visit_block.
Qed.

(** How a run ends: it returns, unless a listing on the way fails for another
    reason than permission, and then it raises that exception. *)
Lemma result_walk (root : node) (prefix : str) :
  result (walk root prefix) = outcome_of (uncaught root ignore_hidden ignore_git).
Proof.
  revert prefix.
  induction root as [| |listing child IH]; intros prefix; try reflexivity.
  destruct listing as [names|e]; [|destruct e; reflexivity].
  rewrite print_tree_listed, result_for. simpl uncaught.
  set (all := all_entries_of child names ignore_hidden ignore_git).
  set (G := fun entry : str =>
              if os_path_isdir (child entry)
              then uncaught (child entry) ignore_hidden ignore_git else None).
  rewrite (map_ext _ (fun ie : Z * str => G (snd ie))).
  2:{ intros [i e]. rewrite result_visit. unfold G. simpl.
      destruct (os_path_isdir (child e)); [|reflexivity].
      rewrite IH. destruct (uncaught (child e) _ _); reflexivity. }
  unfold Py.enumerate. rewrite <- (map_map snd G), enumerate_from_snd.
  unfold all, all_entries_of. rewrite map_app, first_raise_app.
  - rewrite (map_ext_in G
               (fun entry => uncaught (child entry) ignore_hidden ignore_git));
      [reflexivity|].
    intros e He. apply filter_In in He. unfold G.
    destruct He as [_ ->]. reflexivity.
  - apply Forall_map, Forall_forall. intros e He.
    apply filter_In in He. unfold G.
    destruct (os_path_isdir (child e)); [destruct He; discriminate|reflexivity].
Qed.

Lemma uncaught_not_permission (root : node) (e : exn) :
  uncaught root ignore_hidden ignore_git = Some e -> e <> PermissionError.
Proof.
  induction root as [| |listing child IH]; simpl.
  - intros [= <-]. discriminate.
  - intros [= <-]. discriminate.
  - destruct listing as [names|e'].
    + intros H. apply first_raise_In, in_map_iff in H.
      destruct H as (x & Hx & _). exact (IH _ Hx).
    + destruct e'; intros [= <-]; discriminate.
Qed.

(** Every line of a run starts with the prefix the run was given. *)
Lemma output_starts_with_prefix (root : node) (prefix : str) :
  Forall (fun line => exists rest, line = prefix ++ rest) (output (walk root prefix)).
Proof.
  revert prefix.
  induction root as [| |listing child IH]; intros prefix; try constructor.
  destruct listing as [names|e].
  - rewrite output_listed. apply Forall_concat, Forall_map.
    apply Forall_forall. intros [i entry] _. unfold block. simpl.
    constructor.
    + unfold entry_line. eexists. reflexivity.
    + destruct (os_path_isdir (child entry)); [|constructor].
      eapply Forall_impl; [|apply IH].
      intros line [rest ->]. rewrite <- app_assoc. eexists. reflexivity.
  - destruct e; repeat constructor. eexists. reflexivity.
Qed.

(** *** Counting entry lines *)

Lemma is_entry_line_entry (prefix : str) (last : bool) (entry : str) (is_dir : bool) :
  is_entry_line (entry_line isprintable prefix last entry is_dir) = true.
Proof.
  unfold is_entry_line, entry_line. rewrite !existsb_app.
  destruct last; simpl; rewrite ?orb_true_r; reflexivity.
Qed.

Lemma is_entry_line_denied (prefix : str) :
  ~ In stroke prefix -> is_entry_line (denied_line prefix) = false.
Proof.
  intros Hclean. unfold is_entry_line, denied_line. rewrite existsb_app.
  apply orb_false_iff. split; [|reflexivity].
  apply not_true_is_false. intros H. apply existsb_exists in H.
  destruct H as (c & Hin & Hc). apply N.eqb_eq in Hc. subst c. auto.
Qed.

Lemma indent_clean (prefix : str) (last : bool) :
  ~ In stroke prefix -> ~ In stroke (prefix ++ indent last).
Proof.
  intros Hclean Hin. apply in_app_or in Hin. destruct Hin as [Hin|Hin]; [auto|].
  destruct last; simpl in Hin; unfold stroke in Hin;
    repeat (destruct Hin as [Hin|Hin]; [discriminate|]); exact Hin.
Qed.

Lemma for_returns {A : Type} (body : A -> IO unit) (l : list A) :
  result (for_ body l) = Return tt ->
  forall x, In x l -> result (body x) = Return tt.
Proof.
  induction l as [|y l IH]; simpl; [contradiction|].
  rewrite result_bind. intros H x [->|Hx].
  - destruct (result (body x)) as [[]|]; [reflexivity|discriminate].
  - destruct (result (body y)); [auto|discriminate].
Qed.

Lemma list_sum_filter_split {A : Type} (f : A -> nat) (p : A -> bool) (l : list A) :
  list_sum (map f (filter (fun x => negb (p x)) l ++ filter p l)) =
    list_sum (map f l).
Proof.
  rewrite map_app, list_sum_app.
  induction l as [|x l IH]; [reflexivity|].
  simpl. destruct (p x); simpl; lia.
Qed.

Lemma reachable_not_dir (n : node) :
  os_path_isdir n = false -> reachable_entries n ignore_hidden ignore_git = 0.
Proof. destruct n; [reflexivity|reflexivity|discriminate]. Qed.

(** A run that returns writes one entry line for every entry it reaches. *)
Lemma entry_lines_count (root : node) (prefix : str) :
  result (walk root prefix) = Return tt ->
  ~ In stroke prefix ->
  length (filter is_entry_line (output (walk root prefix))) =
    reachable_entries root ignore_hidden ignore_git.
Proof.
  revert prefix.
  induction root as [| |listing child IH]; intros prefix Hret Hclean;
    try discriminate.
  destruct listing as [names|e].
  2:{ destruct e; try discriminate. simpl.
      change (prefix ++ lit "[Permission Denied]") with (denied_line prefix).
      rewrite is_entry_line_denied by exact Hclean. reflexivity. }
  rewrite output_listed. rewrite print_tree_listed in Hret.
  rewrite (started_all _ _ Hret).
  pose proof (for_returns _ _ Hret) as Hall.
  set (all := all_entries_of child names ignore_hidden ignore_git) in *.
  rewrite enumerate_indexed in Hall.
  rewrite enumerate_length.
  rewrite firstn_all2 by (unfold indexed; rewrite indexed_from_length; lia).
  simpl reachable_entries.
  rewrite <- (list_sum_map_permutation _
                (entries_survivors names ignore_hidden ignore_git)).
  rewrite <- (list_sum_filter_split _
                (fun entry => os_path_isdir (child entry))
                (entries_of names ignore_hidden ignore_git)).
  fold (files_of child (entries_of names ignore_hidden ignore_git)).
  fold (dirs_of child (entries_of names ignore_hidden ignore_git)).
  fold (all_entries_of child names ignore_hidden ignore_git). fold all.
  rewrite <- (indexed_from_snd 0 all) at 2. fold (indexed all). rewrite map_map.
  assert (Hblocks : forall ie, In ie (indexed all) ->
            length (filter is_entry_line
                      (blk child prefix (length all) (fst ie) (snd ie))) =
              S (reachable_entries (child (snd ie)) ignore_hidden ignore_git)).
  { intros [i entry] Hin. unfold block. simpl.
    rewrite is_entry_line_entry. simpl. f_equal.
    destruct (os_path_isdir (child entry)) eqn:Hdir.
    - apply IH; [|apply indent_clean; exact Hclean].
      specialize (Hall (Z.of_nat i, entry)).
      rewrite result_visit, Hdir, is_last_index_Z in Hall. apply Hall.
      apply in_map_iff. exists (i, entry). split; [reflexivity|exact Hin].
    - rewrite reachable_not_dir by exact Hdir. reflexivity. }
  clear Hall Hret. revert Hblocks.
  generalize (length all). generalize (indexed all). intros l n.
  induction l as [|ie l IHl]; intros Hblocks; [reflexivity|].
  cbn [map concat list_sum]. rewrite filter_app, length_app, IHl.
  - rewrite Hblocks by (left; reflexivity). reflexivity.
  - intros x Hx. apply Hblocks. right. exact Hx.
Qed.

(** How far the loop gets when its first entries are files. *)
Lemma started_app_returns {A : Type} (body : A -> IO unit) (l1 l2 : list A) :
  (forall x, In x l1 -> result (body x) = Return tt) ->
  started body (l1 ++ l2) = length l1 + started body l2.
Proof.
  induction l1 as [|x l1 IH]; intros H; [reflexivity|].
  simpl. rewrite (H x) by (left; reflexivity).
  rewrite IH; [reflexivity|]. intros y Hy. apply H. right. exact Hy.
Qed.

Lemma enumerate_from_app {A : Type} (s : Z) (l1 l2 : list A) :
  Py.enumerate_from s (l1 ++ l2) =
    Py.enumerate_from s l1 ++ Py.enumerate_from (s + Py.len l1) l2.
Proof.
  revert s. induction l1 as [|x l1 IH]; intros s; simpl.
  - unfold Py.len. simpl. rewrite Z.add_0_r. reflexivity.
  - rewrite IH. do 3 f_equal. unfold Py.len. simpl length. lia.
Qed.

Lemma enumerate_from_length {A : Type} (s : Z) (l : list A) :
  length (Py.enumerate_from s l) = length l.
Proof.
  rewrite <- (enumerate_from_snd s l) at 2. rewrite length_map. reflexivity.
Qed.

Lemma firstn_app_len {A : Type} (l1 l2 : list A) (m k : nat) :
  length l1 = m -> firstn (m + k) (l1 ++ l2) = l1 ++ firstn k l2.
Proof. intros <-. apply firstn_app_2. Qed.

Lemma files_blocks (child : str -> node) (prefix : str) (n : nat)
  (l : list (nat * str)) :
  Forall (fun ie => os_path_isdir (child (snd ie)) = false) l ->
  concat (map (fun ie => blk child prefix n (fst ie) (snd ie)) l) =
    map (fun ie => entry_line isprintable prefix (is_last_index n (fst ie)) (snd ie) false) l.
Proof.
  induction 1 as [|[i e] l He _ IH]; [reflexivity|].
  simpl in *. rewrite IH. unfold block. rewrite He. reflexivity.
Qed.

(** The output of a listing: the lines of the files, then the blocks of the
    directories the loop reached. *)
Lemma output_listed_groups (names : list str) (child : str -> node) (prefix : str) :
  let entries := entries_of names ignore_hidden ignore_git in
  let files := files_of child entries in
  let dirs := dirs_of child entries in
  let n := length (files ++ dirs) in
  exists k,
    k <= length dirs /\
    (result (walk (Dir (Return names) child) prefix) = Return tt -> k = length dirs) /\
    output (walk (Dir (Return names) child) prefix) =
      map (fun ie => entry_line isprintable prefix (is_last_index n (fst ie)) (snd ie) false)
        (indexed files)
      ++ concat (map (fun ie => blk child prefix n (fst ie) (snd ie))
                   (firstn k (indexed_from (length files) dirs))).
Proof.
  intros entries files dirs n.
  set (body := step child prefix ignore_hidden ignore_git (Py.len (files ++ dirs))).
  assert (Hfiles : forall x, In x (Py.enumerate_from 0 files) ->
                             result (body x) = Return tt).
  { intros [i e] Hin. unfold body. rewrite result_visit.
    assert (He : In e files).
    { rewrite <- (enumerate_from_snd 0 files). apply in_map_iff.
      exists (i, e). split; [reflexivity|exact Hin]. }
    apply filter_In in He. destruct He as [_ He].
    apply negb_true_iff in He. rewrite He. reflexivity. }
  exists (started body (Py.enumerate_from (0 + Py.len files) dirs)).
  split; [|split].
  - pose proof (started_le body (Py.enumerate_from (0 + Py.len files) dirs)) as H.
    rewrite enumerate_from_length in H. exact H.
  - rewrite print_tree_listed. intros Hret. apply started_all in Hret.
    unfold all_entries_of, Py.enumerate in Hret. fold entries in Hret.
    change (files_of child entries) with files in Hret.
    change (dirs_of child entries) with dirs in Hret.
    fold body in Hret.
    rewrite enumerate_from_app, started_app_returns in Hret by exact Hfiles.
    rewrite length_app, !enumerate_from_length in Hret. lia.
  - rewrite output_listed. unfold all_entries_of, Py.enumerate. fold entries.
    change (files_of child entries) with files.
    change (dirs_of child entries) with dirs.
    fold n body.
    rewrite enumerate_from_app, started_app_returns by exact Hfiles.
    unfold indexed. rewrite indexed_from_app, enumerate_from_length.
    rewrite firstn_app_len by apply indexed_from_length.
    rewrite map_app, concat_app. f_equal.
    apply files_blocks. apply Forall_forall. intros [i e] Hin.
    assert (He : In e files).
    { rewrite <- (indexed_from_snd 0 files). apply in_map_iff.
      exists (i, e). split; [reflexivity|exact Hin]. }
    apply filter_In in He. destruct He as [_ He].
    apply negb_true_iff in He. exact He.
Qed.

(** *** The two ways a name is shown *)

Lemma repr_char_nonempty (quote ch : char) :
  1 <= length (Py.repr_char isprintable quote ch).
Proof.
  unfold Py.repr_char.
  repeat match goal with
         | |- context [if ?b then _ else _] => destruct b
         end; simpl; lia.
Qed.

Lemma length_flat_map_ge {A B : Type} (f : A -> list B) (l : list A) :
  (forall x, 1 <= length (f x)) -> length l <= length (flat_map f l).
Proof.
  intros Hf. induction l as [|x l IH]; simpl; [lia|].
  rewrite length_app. specialize (Hf x). lia.
Qed.

Lemma length_repr (s : str) : length s + 2 <= length (Py.repr isprintable s).
Proof.
  unfold Py.repr. simpl. rewrite length_app. simpl.
  pose proof (length_flat_map_ge (Py.repr_char isprintable (Py.repr_quote s)) s
                (repr_char_nonempty (Py.repr_quote s))).
  lia.
Qed.

(** An annotated name is longer than the name, so the two forms of a line
    are never the same line. *)
Lemma annotated_not_bare (prefix conn entry suffix : str) (tokens : list str) :
  prefix ++ conn ++ Py.repr isprintable entry ++ bracketed tokens ++ suffix <>
  prefix ++ conn ++ entry ++ suffix.
Proof.
  intros H. apply (f_equal (@length char)) in H.
  rewrite !length_app in H. pose proof (length_repr entry). lia.
Qed.

End Traversal.

(** ** What repr escapes *)

Section ReprFacts.

Variable isprintable : char -> bool.

Lemma repr_char_plain (quote c : char) :
  c <> quote -> unescaped isprintable c -> Py.repr_char isprintable quote c = [c].
Proof.
  intros Hq (H92 & H32 & H127 & Hp). unfold Py.repr_char.
  destruct (N.eqb_spec c quote); [contradiction|].
  destruct (N.eqb_spec c 92); [contradiction|]. simpl.
  destruct (N.eqb_spec c 9); [lia|].
  destruct (N.eqb_spec c 10); [lia|].
  destruct (N.eqb_spec c 13); [lia|].
  destruct (N.ltb_spec c 32); [lia|].
  destruct (N.eqb_spec c 127); [contradiction|]. simpl.
  destruct (N.ltb_spec c 127); [reflexivity|].
  rewrite Hp by lia. reflexivity.
Qed.

Lemma repr_char_single (quote c : char) :
  length (Py.repr_char isprintable quote c) = 1 ->
  c <> quote /\ unescaped isprintable c.
Proof.
  unfold Py.repr_char, unescaped.
  destruct (N.eqb_spec c quote); [discriminate|].
  destruct (N.eqb_spec c 92); [discriminate|]. simpl.
  destruct (N.eqb_spec c 9); [discriminate|].
  destruct (N.eqb_spec c 10); [discriminate|].
  destruct (N.eqb_spec c 13); [discriminate|].
  destruct (N.ltb_spec c 32); [discriminate|].
  destruct (N.eqb_spec c 127); [discriminate|]. simpl.
  destruct (N.ltb_spec c 127).
  - intros _. repeat split; auto. lia.
  - destruct (isprintable c) eqn:Hp.
    + intros _. repeat split; auto.
    + destruct (c <=? 255)%N; [discriminate|].
      destruct (c <=? 65535)%N; discriminate.
Qed.

Lemma flat_map_singletons {A : Type} (f : A -> list A) (l : list A) :
  Forall (fun x => f x = [x]) l -> flat_map f l = l.
Proof.
  induction 1 as [|x l Hx _ IH]; [reflexivity|].
  simpl. rewrite Hx, IH. reflexivity.
Qed.

Lemma flat_map_same_length {A B : Type} (f : A -> list B) (l : list A) :
  (forall x, 1 <= length (f x)) ->
  length (flat_map f l) = length l ->
  Forall (fun x => length (f x) = 1) l.
Proof.
  intros Hf. induction l as [|x l IH]; simpl; [constructor|].
  rewrite length_app. intros H.
  pose proof (Hf x). pose proof (length_flat_map_ge f l Hf).
  constructor; [lia|]. apply IH. lia.
Qed.

Lemma repr_quote_in (s : str) :
  In (Py.repr_quote s) s <-> In 39%N s /\ In 34%N s.
Proof.
  assert (Hex : forall q, existsb (N.eqb q) s = true <-> In q s).
  { intros q. rewrite existsb_exists. split.
    - intros (x & Hx & E). apply N.eqb_eq in E. subst. exact Hx.
    - intros H. exists q. split; [exact H|apply N.eqb_refl]. }
  unfold Py.repr_quote.
  destruct (existsb (N.eqb 39) s) eqn:H39, (existsb (N.eqb 34) s) eqn:H34; simpl;
    rewrite <- ?Hex, ?H39, ?H34; intuition congruence.
Qed.

(** [repr] leaves the name as it is between the quotes exactly when no
    character of the name has to be escaped. *)
Lemma repr_verbatim_iff (s : str) :
  (exists q, Py.repr isprintable s = q :: s ++ [q]) <->
  Forall (unescaped isprintable) s /\ ~ (In 39%N s /\ In 34%N s).
Proof.
  rewrite <- repr_quote_in. unfold Py.repr. split.
  - intros (q & H). injection H as Hq H.
    apply (f_equal (@length char)) in H. rewrite !length_app in H. simpl in H.
    assert (Hlen : length (flat_map (Py.repr_char isprintable (Py.repr_quote s)) s)
                   = length s) by lia.
    apply flat_map_same_length in Hlen; [|apply repr_char_nonempty].
    split.
    + eapply Forall_impl; [|exact Hlen].
      intros c Hc. apply repr_char_single in Hc. apply Hc.
    + intros Hin. rewrite Forall_forall in Hlen.
      apply Hlen, repr_char_single in Hin. destruct Hin as [Hin _]. congruence.
  - intros [Hall Hq]. exists (Py.repr_quote s). simpl. f_equal. f_equal.
    apply flat_map_singletons. rewrite Forall_forall in *.
    intros c Hc. apply repr_char_plain; [|auto]. intros ->. contradiction.
Qed.

End ReprFacts.

(** The output of a listing is what the iterations of the loop wrote, as
    far as the loop got. *)
Lemma output_listed_iterations (isprintable : char -> bool)
  (ignore_hidden ignore_git : bool) (names : list str) (child : str -> node)
  (prefix : str) :
  let all := all_entries_of child names ignore_hidden ignore_git in
  let run := print_tree isprintable (Dir (Return names) child) prefix
               ignore_hidden ignore_git in
  exists k,
    k <= length all /\
    (result run = Return tt -> k = length all) /\
    output run =
      concat (map (fun ie : nat * str =>
                     output (visit isprintable child prefix ignore_hidden ignore_git
                               (Py.len all) (Z.of_nat (fst ie), snd ie)))
                (firstn k (indexed all))).
Proof.
  intros all run.
  exists (started (visit isprintable child prefix ignore_hidden ignore_git (Py.len all))
            (Py.enumerate all)).
  split; [|split].
  - rewrite <- (enumerate_length all). apply started_le.
  - unfold run. rewrite print_tree_listed. intros H.
    apply started_all in H. fold all in H. rewrite H. apply enumerate_length.
  - unfold run. rewrite output_listed. fold all. f_equal.
    apply map_ext. intros [i e]. simpl. symmetry. apply output_visit_block.
Qed.

(** * The properties of the specification *)

(** C1. The line of an entry carries the annotated form, with one token per
    character of the name and in the order of the characters, exactly when
    the name has a special character; it carries the bare name exactly when
    it has none.  The line is the first one the iteration of the loop for
    that entry writes, and a run writes what its iterations write
    ([output_listed_iterations]). *)
Theorem C1_annotated_iff_special (isprintable : char -> bool)
  (ignore_hidden ignore_git : bool) (child : str -> node) (prefix : str)
  (n i : Z) (entry : str) :
  let conn := glyph (i =? n - 1)%Z in
  let suffix := dir_suffix (os_path_isdir (child entry)) in
  exists line below,
    output (visit isprintable child prefix ignore_hidden ignore_git n (i, entry)) =
      line :: below /\
    (special_name entry <->
       exists tokens,
         Forall2 is_codepoint_token entry tokens /\
         line = prefix ++ conn ++ Py.repr isprintable entry ++ bracketed tokens ++ suffix) /\
    (~ special_name entry <-> line = prefix ++ conn ++ entry ++ suffix).
Proof.
  intros conn suffix. rewrite output_visit. eexists. eexists.
  split; [reflexivity|].
  unfold entry_line. fold conn suffix.
  rewrite <- has_special_iff.
  destruct (has_special entry) eqn:Hs.
  - split; split.
    + intros _. exists (map char_to_codepoint entry).
      split; [apply codepoints_tokens|].
      unfold filename_with_codepoints, bracketed.
      rewrite <- !app_assoc. reflexivity.
    + reflexivity.
    + intros H. exfalso. apply H. reflexivity.
    + unfold filename_with_codepoints.
      fold (bracketed (map char_to_codepoint entry)).
      rewrite <- !app_assoc. intros H.
      apply annotated_not_bare in H. contradiction.
  - split; split.
    + discriminate.
    + intros (tokens & _ & H). symmetry in H.
      apply annotated_not_bare in H. contradiction.
    + reflexivity.
    + discriminate.
Qed.

(** C2, as the code has it. The annotated form is [repr] of the name followed
    by the bracketed list of tokens.  Between the quotes stands the name
    itself exactly when [repr] escapes none of its characters: no backslash,
    no control character or DEL, no unprintable character, and not both
    kinds of quote. *)
Theorem C2_annotated_form_is_repr (isprintable : char -> bool) (name : str) :
  filename_with_codepoints isprintable name =
    Py.repr isprintable name ++ bracketed (map char_to_codepoint name) /\
  Forall2 is_codepoint_token name (map char_to_codepoint name) /\
  ((exists q, filename_with_codepoints isprintable name =
                q :: name ++ q :: bracketed (map char_to_codepoint name)) <->
   Forall (unescaped isprintable) name /\ ~ (In 39%N name /\ In 34%N name)).
Proof.
  split; [reflexivity|]. split; [apply codepoints_tokens|].
  rewrite <- repr_verbatim_iff.
  unfold filename_with_codepoints. fold (bracketed (map char_to_codepoint name)).
  split; intros (q & H); exists q.
  - change (q :: name ++ q :: bracketed (map char_to_codepoint name))
      with ((q :: name) ++ [q] ++ bracketed (map char_to_codepoint name)) in H.
    rewrite app_assoc in H. apply app_inv_tail in H. exact H.
  - rewrite H. simpl. rewrite <- app_assoc. reflexivity.
Qed.

(** C2 fails on a name that is one newline: [repr] writes it as a backslash
    and the letter n, so the name does not stand between the quotes, whatever
    the quote and whatever the table of printable characters. *)
Lemma C2_newline_is_escaped :
  special_name [10%N] /\
  ~ (exists isprintable q,
       filename_with_codepoints isprintable [10%N] =
         q :: [10%N] ++ q :: bracketed (map char_to_codepoint [10%N])).
Proof.
  split.
  - constructor. right. reflexivity.
  - intros (isprintable & q & H). vm_compute in H. discriminate.
Qed.

(** C3. In the listing of a directory the lines of the files come first, in
    the order of [sorted], and the blocks of the directories follow, in the
    order of [sorted] too: [k] of them, all when the run returns. *)
Theorem C3_files_before_directories (isprintable : char -> bool)
  (ignore_hidden ignore_git : bool) (names : list str) (child : str -> node)
  (prefix : str) :
  let entries := entries_of names ignore_hidden ignore_git in
  let files := files_of child entries in
  let dirs := dirs_of child entries in
  let n := length (files ++ dirs) in
  let run := print_tree isprintable (Dir (Return names) child) prefix
               ignore_hidden ignore_git in
  (StronglySorted str_le files /\
   Forall (fun e => os_path_isdir (child e) = false) files) /\
  (StronglySorted str_le dirs /\
   Forall (fun e => os_path_isdir (child e) = true) dirs) /\
  Permutation (files ++ dirs) (filter (survives ignore_hidden ignore_git) names) /\
  exists k,
    k <= length dirs /\
    (result run = Return tt -> k = length dirs) /\
    output run =
      map (fun ie => entry_line isprintable prefix (is_last_index n (fst ie))
                       (snd ie) false)
        (indexed files)
      ++ concat
           (map (fun ie => block isprintable ignore_hidden ignore_git child prefix n
                             (fst ie) (snd ie))
              (firstn k (indexed_from (length files) dirs))).
Proof.
  intros entries files dirs n run.
  split; [|split; [|split]].
  - split.
    + apply StronglySorted_filter, entries_sorted.
    + apply Forall_forall. intros e He. apply filter_In in He.
      destruct He as [_ He]. apply negb_true_iff in He. exact He.
  - split.
    + apply StronglySorted_filter, entries_sorted.
    + apply Forall_forall. intros e He. apply filter_In in He. apply He.
  - eapply Permutation_trans; [apply partition_permutation|].
    apply entries_survivors.
  - apply output_listed_groups.
Qed.

(** C4. A directory that may not be listed costs one line, the prefix
    followed by [[Permission Denied]], and the call returns; any other
    failure of the listing is raised with nothing written.  A run ends by
    returning unless it meets a listing that fails for another reason than
    permission, which it raises: a directory that may not be listed never
    ends the run of the directories around it. *)
Theorem C4_permission_denied_is_local (isprintable : char -> bool)
  (ignore_hidden ignore_git : bool) :
  (forall child prefix,
     print_tree isprintable (Dir (Raise PermissionError) child) prefix
       ignore_hidden ignore_git =
       ([prefix ++ lit "[Permission Denied]"], Return tt)) /\
  (forall e child prefix,
     e <> PermissionError ->
     print_tree isprintable (Dir (Raise e) child) prefix ignore_hidden ignore_git =
       ([], Raise e)) /\
  (forall root prefix,
     result (print_tree isprintable root prefix ignore_hidden ignore_git) =
       outcome_of (uncaught root ignore_hidden ignore_git)) /\
  (forall root e,
     uncaught root ignore_hidden ignore_git = Some e -> e <> PermissionError) /\
  (forall names child prefix i entry listed,
     let all := all_entries_of child names ignore_hidden ignore_git in
     nth_error all i = Some entry ->
     child entry = Dir (Raise PermissionError) listed ->
     visit isprintable child prefix ignore_hidden ignore_git (Py.len all)
       (Z.of_nat i, entry) =
       ([entry_line isprintable prefix (is_last_index (length all) i) entry true;
         (prefix ++ indent (is_last_index (length all) i))
         ++ lit "[Permission Denied]"],
        Return tt)).
Proof.
  split; [reflexivity|]. split; [|split; [|split]].
  - intros e child prefix He. destruct e; [contradiction|reflexivity..].
  - intros root prefix. apply result_walk.
  - intros root e. apply uncaught_not_permission.
  - intros names child prefix i entry listed all _ Hdenied.
    apply injective_projections.
    + change (fst ?m) with (output m). rewrite output_visit_block.
      unfold block. rewrite Hdenied. reflexivity.
    + change (snd ?m) with (result m). rewrite result_visit, Hdenied. reflexivity.
Qed.

(** C5, as the code has it. When the run returns, under a prefix that has no
    stroke of a connector, the number of entry lines it wrote is the number
    of entries that can be reached from the root and survive the filters. *)
Theorem C5_one_line_per_entry (isprintable : char -> bool)
  (ignore_hidden ignore_git : bool) (root : node) (prefix : str) :
  result (print_tree isprintable root prefix ignore_hidden ignore_git) = Return tt ->
  ~ In stroke prefix ->
  length (filter is_entry_line
            (output (print_tree isprintable root prefix ignore_hidden ignore_git))) =
    reachable_entries root ignore_hidden ignore_git.
Proof.
  intros Hret Hclean. apply entry_lines_count; [exact Hret|exact Hclean].
Qed.

(** C5 fails on a tree with a listing that fails for another reason than
    permission: the run ends at the first such directory, after two entry
    lines, and the third entry of the root is never written. *)
Lemma C5_failed_listing_cuts_the_count :
  result (print_tree latin1_printable failing_tree [] true true) = Raise OSError /\
  length (filter is_entry_line
            (output (print_tree latin1_printable failing_tree [] true true))) = 2 /\
  reachable_entries failing_tree true true = 3 /\
  length (filter is_entry_line
            (output (print_tree latin1_printable failing_tree [] true true))) <>
    reachable_entries failing_tree true true.
Proof.
  split; [reflexivity|]. split; [reflexivity|]. split; [reflexivity|].
  vm_compute. discriminate.
Qed.

(** C6. The run on a directory writes what the iterations of its loop write,
    in the order of the listing, and the line of the entry at index [i]
    starts with the prefix and then the corner glyph when [i] is the last
    index, the tee glyph otherwise; the two glyphs differ. *)
Theorem C6_last_entry_gets_corner (isprintable : char -> bool)
  (ignore_hidden ignore_git : bool) (names : list str) (child : str -> node)
  (prefix : str) :
  let all := all_entries_of child names ignore_hidden ignore_git in
  let run := print_tree isprintable (Dir (Return names) child) prefix
               ignore_hidden ignore_git in
  let iteration := fun ie : nat * str =>
    output (visit isprintable child prefix ignore_hidden ignore_git (Py.len all)
              (Z.of_nat (fst ie), snd ie)) in
  (exists k,
     k <= length all /\
     (result run = Return tt -> k = length all) /\
     output run = concat (map iteration (firstn k (indexed all)))) /\
  last_glyph <> branch_glyph /\
  forall i entry,
    nth_error all i = Some entry ->
    exists shown below,
      iteration (i, entry) =
        (prefix ++ (if Nat.eqb (S i) (length all) then last_glyph else branch_glyph)
         ++ shown) :: below.
Proof.
  intros all run iteration. split; [|split; [discriminate|]].
  - apply output_listed_iterations.
  - intros i entry _. unfold iteration. cbn [fst snd].
    rewrite output_visit_block. unfold block, entry_line.
    eexists. eexists. unfold glyph, is_last_index. reflexivity.
Qed.

(** C7. The line of an entry is what stands before the separator, followed
    by the separator for a directory and by nothing for a file; when the
    name has no separator of its own, as no name of a listing has, the line
    ends with the separator exactly when the entry is a directory. *)
Theorem C7_separator_iff_directory (isprintable : char -> bool)
  (ignore_hidden ignore_git : bool) (child : str -> node) (prefix : str)
  (n i : Z) (entry : str) :
  ~ In separator entry ->
  exists line body below,
    output (visit isprintable child prefix ignore_hidden ignore_git n (i, entry)) =
      line :: below /\
    line = body ++ (if os_path_isdir (child entry) then [separator] else []) /\
    (last line 0%N = separator <-> os_path_isdir (child entry) = true).
Proof.
  intros Hsep. rewrite output_visit. unfold entry_line, dir_suffix.
  eexists. exists (prefix ++ glyph (i =? n - 1)%Z
                   ++ (if has_special entry
                       then filename_with_codepoints isprintable entry else entry)).
  eexists. split; [reflexivity|]. split.
  - rewrite <- !app_assoc. reflexivity.
  - destruct (os_path_isdir (child entry)).
    + rewrite !app_assoc, last_last. split; reflexivity.
    + rewrite app_nil_r. split; [|discriminate]. intros Hlast. exfalso.
      destruct (has_special entry).
      * unfold filename_with_codepoints in Hlast.
        rewrite !app_assoc in Hlast.
        change (lit "]") with [93%N] in Hlast.
        rewrite last_last in Hlast. discriminate.
      * destruct entry as [|c0 rest].
        -- rewrite app_nil_r in Hlast.
           destruct (i =? n - 1)%Z; simpl in Hlast;
             [change last_glyph with ([9492; 9472; 9472]%N ++ [32%N]) in Hlast
             |change branch_glyph with ([9500; 9472; 9472]%N ++ [32%N]) in Hlast];
             rewrite app_assoc, last_last in Hlast; discriminate.
        -- destruct (@exists_last _ (c0 :: rest)) as (front & c & E);
             [discriminate|].
           rewrite E in Hlast. rewrite !app_assoc in Hlast.
           rewrite last_last in Hlast. apply Hsep. rewrite E.
           apply in_or_app. right. left. exact Hlast.
Qed.

(** C8. The run on a directory writes what the iterations of its loop write,
    in the order of the listing.  The iteration for an entry writes the line
    of the entry and nothing more for a file; for a directory it then writes
    what [print_tree] writes on that directory under the prefix extended by
    four characters, spaces after the last entry and the continuation glyph
    otherwise, so that every line below the entry starts with the extended
    prefix. *)
Theorem C8_children_under_extended_prefix (isprintable : char -> bool)
  (ignore_hidden ignore_git : bool) (names : list str) (child : str -> node)
  (prefix : str) :
  let all := all_entries_of child names ignore_hidden ignore_git in
  let run := print_tree isprintable (Dir (Return names) child) prefix
               ignore_hidden ignore_git in
  let iteration := fun ie : nat * str =>
    output (visit isprintable child prefix ignore_hidden ignore_git (Py.len all)
              (Z.of_nat (fst ie), snd ie)) in
  (exists k,
     k <= length all /\
     (result run = Return tt -> k = length all) /\
     output run = concat (map iteration (firstn k (indexed all)))) /\
  forall i entry,
    nth_error all i = Some entry ->
    let extension :=
      if Nat.eqb (S i) (length all) then four_spaces else continuation in
    exists line below,
      iteration (i, entry) = line :: below /\
      length extension = 4 /\
      (os_path_isdir (child entry) = false -> below = []) /\
      (os_path_isdir (child entry) = true ->
       below = output (print_tree isprintable (child entry) (prefix ++ extension)
                         ignore_hidden ignore_git)) /\
      Forall (fun l => exists rest, l = prefix ++ extension ++ rest) below.
Proof.
  intros all run iteration. split; [apply output_listed_iterations|].
  intros i entry _ extension. unfold iteration. cbn [fst snd].
  rewrite output_visit_block. unfold block.
  assert (Hext : indent (is_last_index (length all) i) = extension) by reflexivity.
  rewrite Hext. eexists. eexists. split; [reflexivity|].
  split; [unfold extension; destruct (Nat.eqb (S i) (length all)); reflexivity|].
  destruct (os_path_isdir (child entry)).
  - split; [discriminate|]. split; [reflexivity|].
    eapply Forall_impl; [|apply output_starts_with_prefix].
    intros l [rest ->]. exists rest. rewrite app_assoc. reflexivity.
  - split; [reflexivity|]. split; [discriminate|constructor].
Qed.

(** C9. Both branches of [char_to_codepoint] build the same string: whatever
    the test on [cp] answers, the result is [U+] followed by the uppercase
    hexadecimal digits of [ord(c)], zero-padded to four digits and longer
    only when the codepoint needs more; it is the one token of [c]. *)
Theorem C9_char_to_codepoint_one_format (c : char) :
  char_to_codepoint c = lit "U+" ++ Py.format_04X (ord c) /\
  (forall t, is_codepoint_token c t <-> t = char_to_codepoint c).
Proof.
  assert (Htok : is_codepoint_token c (char_to_codepoint c)).
  { rewrite char_to_codepoint_eq. apply zfill_hex_token. }
  split.
  - unfold char_to_codepoint. destruct (ord c <? 256)%Z; reflexivity.
  - intros t. split.
    + intros Ht. exact (token_unique Ht Htok).
    + intros ->. exact Htok.
Qed.

(** C10. With [ignore_hidden] on, [ignore_git] changes nothing: the filter on
    the leading dot has already removed [.git], so the two runs write the
    same lines and end the same way. *)
Theorem C10_ignore_git_redundant (isprintable : char -> bool) (root : node)
  (prefix : str) :
  print_tree isprintable root prefix true true =
  print_tree isprintable root prefix true false.
Proof.
  revert prefix.
  induction root as [| |listing child IH]; intros prefix; try reflexivity.
  destruct listing as [names|e]; [|reflexivity].
  rewrite !print_tree_listed. unfold all_entries_of.
  rewrite entries_hidden_git. apply for_ext.
  intros [i entry]. unfold visit.
  destruct (os_path_isdir (child entry)); [|reflexivity].
  rewrite IH. reflexivity.
Qed.

(** * The sample tree *)

(** The run on the sample tree: files first, the hidden directory left out,
    the zero-width space shown by [repr] and by its token, one line for the
    directory that may not be listed. *)
Example sample_run :
  print_tree latin1_printable sample_root [] true true =
    ([ branch_glyph ++ lit "a.txt";
       branch_glyph ++ lit "b.txt";
       branch_glyph ++ [39; 233; 39]%N ++ lit " [U+00E9]";
       last_glyph ++ lit "sub/";
       four_spaces ++ branch_glyph ++ lit "nested.txt";
       four_spaces ++ branch_glyph ++ lit "'w\u200bn' [U+0077 U+200B U+006E]";
       four_spaces ++ last_glyph ++ lit "locked/";
       four_spaces ++ four_spaces ++ lit "[Permission Denied]" ],
     Return tt).
Proof. vm_compute. reflexivity. Qed.

(** Without the filters the hidden directory is listed with the others. *)
Example sample_run_unfiltered :
  output (print_tree latin1_printable sample_root [] false false) =
    [ branch_glyph ++ lit "a.txt";
      branch_glyph ++ lit "b.txt";
      branch_glyph ++ [39; 233; 39]%N ++ lit " [U+00E9]";
      branch_glyph ++ lit ".git/";
      last_glyph ++ lit "sub/";
      four_spaces ++ branch_glyph ++ lit "nested.txt";
      four_spaces ++ branch_glyph ++ lit "'w\u200bn' [U+0077 U+200B U+006E]";
      four_spaces ++ last_glyph ++ lit "locked/";
      four_spaces ++ four_spaces ++ lit "[Permission Denied]" ].
Proof. vm_compute. reflexivity. Qed.

(** A root that does not exist ends the run. *)
Example missing_root :
  print_tree latin1_printable Missing [] true true = ([], Raise FileNotFoundError).
Proof. reflexivity. Qed.

(** A listing that fails below the root ends the run after the lines
    written so far. *)
Example failure_below_root :
  print_tree latin1_printable
    (Dir (Return [lit "a"; lit "d"; lit "z"])
       (fun e => if Py.str_eqb e (lit "a") then File
                 else Dir (Raise OSError) (fun _ => Missing)))
    [] true true =
    ([branch_glyph ++ lit "a"; branch_glyph ++ lit "d/"], Raise OSError).
Proof. vm_compute. reflexivity. Qed.

(** Tokens below and above U+0100 and U+10000. *)
Example tokens_of_all_sizes :
  map char_to_codepoint [10; 233; 256; 8203; 65536; 1114111]%N =
    [lit "U+000A"; lit "U+00E9"; lit "U+0100"; lit "U+200B"; lit "U+10000";
     lit "U+10FFFF"].
Proof. vm_compute. reflexivity. Qed.

(** The sample tree meets the hypotheses of C5: the run returns, the empty
    prefix has no stroke; seven entries are reached. *)
Lemma C5_sample_count :
  result (print_tree latin1_printable sample_root [] true true) = Return tt /\
  ~ In stroke [] /\
  length (filter is_entry_line
            (output (print_tree latin1_printable sample_root [] true true))) =
    reachable_entries sample_root true true /\
  reachable_entries sample_root true true = 7.
Proof.
  split; [reflexivity|]. split; [intros []|].
  split; [|reflexivity].
  exact (C5_one_line_per_entry latin1_printable true true sample_root []
           eq_refl (fun H : In stroke [] => H)).
Defined.

(** The directory of the sample listing meets the hypothesis of C7. *)
Lemma C7_sample_separator :
  ~ In separator (lit "sub") /\
  exists line body below,
    output (visit latin1_printable sample_child [] true true 4 (3%Z, lit "sub")) =
      line :: below /\
    line = body ++ (if os_path_isdir (sample_child (lit "sub"))
                    then [separator] else []) /\
    (last line 0%N = separator <-> os_path_isdir (sample_child (lit "sub")) = true).
Proof.
  assert (H : ~ In separator (lit "sub")).
  { intros H. vm_compute in H. intuition discriminate. }
  split; [exact H|].
  exact (C7_separator_iff_directory latin1_printable true true sample_child []
           4 3 (lit "sub") H).
Defined.

(** The last entry of the sample listing. *)
Lemma C6_sample_last :
  nth_error (all_entries_of sample_child sample_names true true) 3 = Some (lit "sub") /\
  exists shown below,
    output (visit latin1_printable sample_child [] true true
              (Py.len (all_entries_of sample_child sample_names true true))
              (3%Z, lit "sub")) =
      ([] ++ last_glyph ++ shown) :: below.
Proof.
  split; [reflexivity|].
  destruct (C6_last_entry_gets_corner latin1_printable true true sample_names
              sample_child []) as (_ & _ & H).
  exact (H 3 (lit "sub") eq_refl).
Defined.

(** The directory of the sample listing and the lines below it. *)
Lemma C8_sample_children :
  nth_error (all_entries_of sample_child sample_names true true) 3 = Some (lit "sub") /\
  exists line below,
    output (visit latin1_printable sample_child [] true true
              (Py.len (all_entries_of sample_child sample_names true true))
              (3%Z, lit "sub")) = line :: below /\
    length four_spaces = 4 /\
    (os_path_isdir (sample_child (lit "sub")) = false -> below = []) /\
    (os_path_isdir (sample_child (lit "sub")) = true ->
     below = output (print_tree latin1_printable (sample_child (lit "sub"))
                       ([] ++ four_spaces) true true)) /\
    Forall (fun l => exists rest, l = [] ++ four_spaces ++ rest) below.
Proof.
  split; [reflexivity|].
  destruct (C8_children_under_extended_prefix latin1_printable true true
              sample_names sample_child []) as (_ & H).
  exact (H 3 (lit "sub") eq_refl).
Defined.

(** A directory that may not be listed, as the only entry of a listing. *)
Lemma C4_sample_denied :
  let child := fun _ : str => locked_dir in
  let all := all_entries_of child [lit "locked"] true true in
  nth_error all 0 = Some (lit "locked") /\
  child (lit "locked") = Dir (Raise PermissionError) (fun _ => Missing) /\
  visit latin1_printable child four_spaces true true (Py.len all)
    (Z.of_nat 0, lit "locked") =
    ([entry_line latin1_printable four_spaces (is_last_index (length all) 0)
        (lit "locked") true;
      (four_spaces ++ indent (is_last_index (length all) 0))
      ++ lit "[Permission Denied]"],
     Return tt).
Proof.
  intros child all. split; [reflexivity|]. split; [reflexivity|].
  destruct (C4_permission_denied_is_local latin1_printable true true)
    as (_ & _ & _ & _ & H).
  exact (H [lit "locked"] child four_spaces 0 (lit "locked")
           (fun _ => Missing) eq_refl eq_refl).
Defined.

(** * Further properties *)

(** ** The prefix is only ever put in front *)

Lemma bind_print {A : Type} (line : str) (k : IO A) :
  (print line ;; k) = (line :: output k, result k).
Proof. reflexivity. Qed.

Lemma for_map_output {A : Type} (F : str -> str) (f g : A -> IO unit) (l : list A) :
  (forall x, f x = (map F (output (g x)), result (g x))) ->
  for_ f l = (map F (output (for_ g l)), result (for_ g l)).
Proof.
  intros H. induction l as [|x l IH]; [reflexivity|].
  simpl. unfold bind. rewrite H, IH. simpl.
  destruct (result (g x)); simpl; [|reflexivity].
  rewrite map_app. reflexivity.
Qed.

(** X5. Running under the prefix [p ++ q] writes the lines of the run under
    [q], each with [p] in front, and ends as that run ends. *)
Theorem print_tree_prefix_in_front (isprintable : char -> bool)
  (ignore_hidden ignore_git : bool) (root : node) (p q : str) :
  print_tree isprintable root (p ++ q) ignore_hidden ignore_git =
    (map (app p) (output (print_tree isprintable root q ignore_hidden ignore_git)),
     result (print_tree isprintable root q ignore_hidden ignore_git)).
Proof.
  revert q. induction root as [| |listing child IH]; intros q; try reflexivity.
  destruct listing as [names|e].
  - rewrite !print_tree_listed. apply for_map_output.
    intros [i entry]. unfold visit. fold (has_special entry).
    destruct (has_special entry), (os_path_isdir (child entry));
      rewrite !bind_print, <- ?(app_assoc p q), ?IH; reflexivity.
  - destruct e; try reflexivity. simpl. unfold print.
    rewrite <- app_assoc. reflexivity.
Qed.

(** ** The characters of an annotated name *)

Section AnnotationChars.

Local Open Scope N_scope.

Variable isprintable : char -> bool.

Ltac plain_list :=
  repeat (constructor; [unfold plain, separator; lia|]); constructor.

Lemma hex_loop_Forall (P : char -> Prop) (upper : bool) :
  (forall d, d < 16 -> P (Py.hex_digit upper d)) ->
  forall fuel n acc, Forall P acc -> Forall P (Py.hex_loop fuel upper n acc).
Proof.
  intros Hd. induction fuel as [|fuel IH]; intros n acc Hacc; simpl; [exact Hacc|].
  destruct (n =? 0); [exact Hacc|].
  apply IH. constructor; [|exact Hacc]. apply Hd, N.mod_lt. lia.
Qed.

Lemma hex_digit_plain (upper : bool) (d : N) : d < 16 -> plain (Py.hex_digit upper d).
Proof.
  intros H. unfold plain, separator, Py.hex_digit.
  destruct (N.ltb_spec d 10), upper; lia.
Qed.

Lemma zfill_hex_plain (upper : bool) (w : nat) (n : N) :
  Forall plain (Py.zfill w (Py.hex upper n)).
Proof.
  unfold Py.zfill. apply Forall_app. split.
  - apply Forall_forall. intros c Hc. apply repeat_spec in Hc. subst c.
    unfold plain, separator. lia.
  - unfold Py.hex. destruct (n =? 0).
    + constructor; [unfold plain, separator; lia|constructor].
    + apply hex_loop_Forall; [apply hex_digit_plain|constructor].
Qed.

(** What [repr] writes for a character: the character itself, when it is
    no control character, or plain characters. *)
Lemma repr_char_chars (quote ch : char) :
  quote = 34 \/ quote = 39 ->
  Forall (fun c => (c = ch /\ 32 <= c /\ c <> 127) \/ plain c)
    (Py.repr_char isprintable quote ch).
Proof.
  intros Hq. unfold Py.repr_char.
  assert (Hesc : forall w, Forall (fun c => (c = ch /\ 32 <= c /\ c <> 127) \/ plain c)
                             (Py.zfill w (Py.hex false ch))).
  { intros w. eapply Forall_impl; [|apply zfill_hex_plain]. auto. }
  assert (Hp : forall c, 32 <= c < 127 -> c <> 47 ->
                 (c = ch /\ 32 <= c /\ c <> 127) \/ plain c).
  { intros c H1 H2. right. split; assumption. }
  assert (Htwo : forall a b, 32 <= a < 127 -> a <> 47 -> 32 <= b < 127 -> b <> 47 ->
                   Forall (fun c => (c = ch /\ 32 <= c /\ c <> 127) \/ plain c) [a; b]).
  { intros a b Ha1 Ha2 Hb1 Hb2.
    constructor; [apply Hp; assumption|].
    constructor; [apply Hp; assumption|constructor]. }
  destruct (N.eqb_spec ch quote) as [E|Hnq]; simpl.
  { apply Htwo; lia. }
  destruct (N.eqb_spec ch 92) as [E|H92]; simpl.
  { apply Htwo; lia. }
  destruct (N.eqb_spec ch 9); [apply Htwo; lia|].
  destruct (N.eqb_spec ch 10); [apply Htwo; lia|].
  destruct (N.eqb_spec ch 13); [apply Htwo; lia|].
  destruct (N.ltb_spec ch 32); simpl.
  { constructor; [apply Hp; lia|]. constructor; [apply Hp; lia|]. apply Hesc. }
  destruct (N.eqb_spec ch 127).
  { constructor; [apply Hp; lia|]. constructor; [apply Hp; lia|]. apply Hesc. }
  destruct (N.ltb_spec ch 127).
  { constructor; [|constructor]. left. repeat split; auto. }
  destruct (isprintable ch).
  { constructor; [|constructor]. left. repeat split; auto. }
  destruct (ch <=? 255); [|destruct (ch <=? 65535)];
    (constructor; [apply Hp; lia|]; constructor; [apply Hp; lia|]; apply Hesc).
Qed.

Lemma repr_quote_cases (s : str) : Py.repr_quote s = 34 \/ Py.repr_quote s = 39.
Proof. unfold Py.repr_quote. destruct (_ && _); auto. Qed.

Lemma join_Forall (P : char -> Prop) (sep : str) (parts : list str) :
  Forall P sep -> Forall (Forall P) parts -> Forall P (Py.join sep parts).
Proof.
  intros Hsep. induction 1 as [|p parts Hp _ IH]; [constructor|].
  simpl. destruct parts as [|p' parts]; [exact Hp|].
  apply Forall_app. split; [exact Hp|]. apply Forall_app. split; assumption.
Qed.

Lemma char_to_codepoint_plain (c : char) : Forall plain (char_to_codepoint c).
Proof.
  rewrite char_to_codepoint_eq. apply Forall_app. split.
  - change (lit "U+") with [85; 43]. plain_list.
  - apply zfill_hex_plain.
Qed.

(** Every character of an annotated name is a character of the name that
    is no control character, or a plain character. *)
Lemma filename_chars (name : str) :
  Forall (fun c => (In c name /\ 32 <= c /\ c <> 127) \/ plain c)
    (filename_with_codepoints isprintable name).
Proof.
  assert (Hp : forall l, Forall plain l ->
                 Forall (fun c => (In c name /\ 32 <= c /\ c <> 127) \/ plain c) l).
  { intros l. apply Forall_impl. auto. }
  unfold filename_with_codepoints, Py.repr.
  apply (@Forall_app _ _ (_ :: _)). split; [|apply Forall_app; split;
    [|apply Forall_app; split]].
  - constructor.
    + right. destruct (repr_quote_cases name) as [-> | ->];
        unfold plain, separator; lia.
    + apply Forall_app. split.
      * apply Forall_flat_map, Forall_forall. intros ch Hch.
        eapply Forall_impl; [|apply repr_char_chars, repr_quote_cases].
        intros c [(-> & H)|H]; [left; split; assumption|right; exact H].
      * constructor; [|constructor].
        right. destruct (repr_quote_cases name) as [-> | ->];
          unfold plain, separator; lia.
  - apply Hp. change (lit " [") with [32; 91]. plain_list.
  - apply Hp, join_Forall.
    + change (lit " ") with [32]. plain_list.
    + apply Forall_map, Forall_forall. intros c _. apply char_to_codepoint_plain.
  - apply Hp. change (lit "]") with [93]. plain_list.
Qed.

End AnnotationChars.

(** ** No control character reaches the output *)

Lemma bare_name_control_free (entry : str) :
  has_special entry = false -> control_free entry.
Proof.
  intros H. apply Forall_forall. intros c Hc.
  destruct (N.ltb_spec c 32) as [Hlt|]; [|assumption].
  exfalso. assert (Hs : has_special entry = true); [|congruence].
  apply existsb_exists. exists c. split; [exact Hc|].
  apply orb_true_iff. right. apply Z.ltb_lt. unfold ord. lia.
Qed.

Lemma annotated_name_control_free (isprintable : char -> bool) (name : str) :
  control_free (filename_with_codepoints isprintable name).
Proof.
  eapply Forall_impl; [|apply filename_chars].
  intros c [(_ & H & _)|[[H _] _]]; exact H.
Qed.

Lemma entry_line_control_free (isprintable : char -> bool) (prefix : str)
  (last : bool) (entry : str) (is_dir : bool) :
  control_free prefix ->
  control_free (entry_line isprintable prefix last entry is_dir).
Proof.
  intros Hp. unfold entry_line.
  apply Forall_app. split; [exact Hp|].
  apply Forall_app. split.
  { destruct last; repeat (constructor; [lia|]); constructor. }
  apply Forall_app. split.
  - destruct (has_special entry) eqn:Hs.
    + apply annotated_name_control_free.
    + apply bare_name_control_free, Hs.
  - destruct is_dir; repeat (constructor; [unfold separator; lia|]); constructor.
Qed.

(** X3. Under a prefix without control characters no line of a run has a
    character below U+0020: a newline, a carriage return or an escape in a
    name never reaches standard output as it is. *)
Theorem print_tree_writes_no_control_character (isprintable : char -> bool)
  (ignore_hidden ignore_git : bool) (root : node) (prefix : str) :
  control_free prefix ->
  Forall control_free
    (output (print_tree isprintable root prefix ignore_hidden ignore_git)).
Proof.
  revert prefix.
  induction root as [| |listing child IH]; intros prefix Hp; try constructor.
  destruct listing as [names|e].
  - rewrite output_listed. apply Forall_concat, Forall_map, Forall_forall.
    intros [i entry] _. unfold block. cbn [fst snd]. constructor.
    + apply entry_line_control_free, Hp.
    + destruct (os_path_isdir (child entry)); [|constructor].
      apply IH. apply Forall_app. split; [exact Hp|].
      destruct (is_last_index _ i); repeat (constructor; [lia|]); constructor.
  - destruct e; try constructor; [|constructor].
    apply Forall_app. split; [exact Hp|].
    vm_compute. repeat (constructor; [discriminate|]). constructor.
Qed.

(** The root of [main] and a name that is one escape character. *)
Lemma print_tree_control_free_sample :
  control_free [] /\
  Forall control_free
    (output (print_tree latin1_printable
               (Dir (Return [[27%N]; lit "a"]) (fun _ => File)) [] true true)).
Proof.
  split; [constructor|].
  apply print_tree_writes_no_control_character. constructor.
Defined.

(** ** An annotated line can be imitated *)

(** X9. For a name of ASCII characters with a control character among them,
    the annotated form is itself a possible name, of plain characters only,
    and a file of that name gets the very line the first name gets. *)
Theorem annotated_line_can_be_imitated (isprintable : char -> bool)
  (ignore_hidden ignore_git : bool) (child : str -> node) (prefix : str)
  (n i : Z) (name : str) :
  Forall (fun c => (c < 128)%N) name ->
  special_name name ->
  ~ In separator name ->
  os_path_isdir (child (filename_with_codepoints isprintable name)) =
    os_path_isdir (child name) ->
  let imitation := filename_with_codepoints isprintable name in
  imitation <> name /\
  Forall plain imitation /\
  hd [] (output (visit isprintable child prefix ignore_hidden ignore_git n
                   (i, imitation))) =
    hd [] (output (visit isprintable child prefix ignore_hidden ignore_git n
                     (i, name))).
Proof.
  intros Hascii Hspecial Hsep Hkind imitation.
  assert (Hplain : Forall plain imitation).
  { pose proof (filename_chars isprintable name) as Hc.
    rewrite Forall_forall in Hc, Hascii. apply Forall_forall. intros c Hin.
    destruct (Hc c Hin) as [(Hn & H32 & H127)|H]; [|exact H].
    specialize (Hascii c Hn). split; [lia|]. intros ->. contradiction. }
  split; [|split; [exact Hplain|]].
  - intros E. apply (f_equal (@length char)) in E.
    unfold imitation, filename_with_codepoints in E.
    rewrite length_app in E. pose proof (length_repr isprintable name). lia.
  - change (filename_with_codepoints isprintable name) with imitation in Hkind.
    rewrite !output_visit, Hkind. cbn [hd].
    assert (Hno : has_special imitation = false).
    { apply not_true_is_false. intros Hs. apply has_special_iff in Hs.
      apply Exists_exists in Hs. destruct Hs as (c & Hc & Hsc).
      rewrite Forall_forall in Hplain. destruct (Hplain c Hc) as [Hr _].
      unfold special, ord in Hsc. lia. }
    apply has_special_iff in Hspecial.
    unfold entry_line. rewrite Hno, Hspecial. reflexivity.
Qed.

(** A name that is one newline, and its imitation, both files. *)
Lemma imitation_of_newline :
  let name := [10%N] in
  let child := fun _ : str => File in
  Forall (fun c => (c < 128)%N) name /\
  special_name name /\
  ~ In separator name /\
  filename_with_codepoints latin1_printable name = lit "'\n' [U+000A]" /\
  hd [] (output (visit latin1_printable child [] true true 1
                   (0%Z, filename_with_codepoints latin1_printable name))) =
    hd [] (output (visit latin1_printable child [] true true 1 (0%Z, name))).
Proof.
  intros name child.
  assert (H1 : Forall (fun c => (c < 128)%N) name) by (repeat constructor).
  assert (H2 : special_name name) by (constructor; right; reflexivity).
  assert (H3 : ~ In separator name).
  { intros [H|[]]. discriminate. }
  split; [exact H1|]. split; [exact H2|]. split; [exact H3|].
  split; [reflexivity|].
  exact (proj2 (proj2 (annotated_line_can_be_imitated latin1_printable true true
                         child [] 1 0 H1 H2 H3 eq_refl))).
Defined.

(** ** Different names, different annotations *)

Section AnnotationInjective.

Local Open Scope N_scope.

Lemma char_to_codepoint_token_chars (c : char) :
  Forall token_char (char_to_codepoint c) /\ char_to_codepoint c <> [].
Proof.
  rewrite char_to_codepoint_eq. split; [|discriminate].
  change (lit "U+") with [85; 43].
  constructor; [unfold token_char; lia|]. constructor; [unfold token_char; lia|].
  unfold Py.zfill. apply Forall_app. split.
  - apply Forall_forall. intros d Hd. apply repeat_spec in Hd. subst d.
    unfold token_char. lia.
  - destruct (hex_spec c) as (Hall & _).
    eapply Forall_impl; [|exact Hall].
    intros d Hd. unfold upper_hex_digit in Hd. unfold token_char. lia.
Qed.

Lemma char_to_codepoint_injective (c c' : char) :
  char_to_codepoint c = char_to_codepoint c' -> c = c'.
Proof.
  intros E. apply (token_char_unique (t := char_to_codepoint c)).
  - rewrite char_to_codepoint_eq. apply zfill_hex_token.
  - rewrite E, char_to_codepoint_eq. apply zfill_hex_token.
Qed.

Lemma codepoints_injective (n1 n2 : str) :
  map char_to_codepoint n1 = map char_to_codepoint n2 -> n1 = n2.
Proof.
  revert n2. induction n1 as [|c n1 IH]; intros [|c' n2]; simpl;
    try discriminate; [reflexivity|].
  intros [= Hc Hn]. f_equal; [apply char_to_codepoint_injective, Hc|apply IH, Hn].
Qed.

(** Two strings that agree up to their first space. *)
Lemma first_space_unique (a b ra rb : str) :
  Forall token_char a -> Forall token_char b ->
  (ra = [] \/ exists t, ra = 32 :: t) -> (rb = [] \/ exists t, rb = 32 :: t) ->
  a ++ ra = b ++ rb -> a = b /\ ra = rb.
Proof.
  intros Ha. revert b. induction Ha as [|x a Hx _ IH]; intros b Hb Hra Hrb E.
  - destruct Hb as [|y b Hy _]; [auto|]. simpl in E. exfalso.
    destruct Hra as [->|(t & ->)]; [discriminate|].
    injection E as E _. unfold token_char in Hy. lia.
  - destruct Hb as [|y b Hy Hb]; simpl in E.
    + exfalso. destruct Hrb as [->|(t & ->)]; [discriminate|].
      injection E as E _. unfold token_char in Hx. lia.
    + injection E as -> E. destruct (IH b Hb Hra Hrb E) as [-> ->]. auto.
Qed.

Lemma join_cons (p : str) (rest : list str) :
  Py.join [32] (p :: rest) =
    p ++ match rest with [] => [] | _ :: _ => 32 :: Py.join [32] rest end.
Proof. destruct rest; simpl; [rewrite app_nil_r|]; reflexivity. Qed.

Lemma join_injective (l1 l2 : list str) :
  Forall (fun t => Forall token_char t /\ t <> []) l1 ->
  Forall (fun t => Forall token_char t /\ t <> []) l2 ->
  Py.join [32] l1 = Py.join [32] l2 -> l1 = l2.
Proof.
  intros H1. revert l2. induction H1 as [|t1 l1 [Ht1 Hne1] Hl1 IH]; intros l2 H2 E.
  - destruct H2 as [|t2 l2 [_ Hne2] _]; [reflexivity|].
    rewrite join_cons in E. destruct t2; [congruence|discriminate].
  - destruct H2 as [|t2 l2 [Ht2 Hne2] Hl2].
    + rewrite join_cons in E. destruct t1; [congruence|discriminate].
    + rewrite !join_cons in E.
      apply first_space_unique in E; try assumption.
      * destruct E as [-> E]. f_equal.
        destruct l1 as [|a l1], l2 as [|b l2]; try discriminate; [reflexivity|].
        injection E as E. apply IH; assumption.
      * destruct l1; [left; reflexivity|right; eexists; reflexivity].
      * destruct l2; [left; reflexivity|right; eexists; reflexivity].
Qed.

(** Two strings that agree from their last opening bracket on. *)
Lemma last_bracket_unique (x1 x2 j1 j2 : str) :
  ~ In 91 j1 -> ~ In 91 j2 ->
  x1 ++ 91 :: j1 = x2 ++ 91 :: j2 -> j1 = j2.
Proof.
  revert x2. induction x1 as [|a x1 IH]; intros [|b x2] H1 H2 E; simpl in E.
  - congruence.
  - exfalso. injection E as _ E. apply H1. rewrite E.
    apply in_or_app. right. left. reflexivity.
  - exfalso. injection E as _ E. apply H2. rewrite <- E.
    apply in_or_app. right. left. reflexivity.
  - injection E as _ E. exact (IH x2 H1 H2 E).
Qed.

Lemma tokens_no_bracket (name : str) :
  ~ In 91 (Py.join [32] (map char_to_codepoint name) ++ [93]).
Proof.
  intros H. apply in_app_or in H. destruct H as [H|[H|[]]]; [|discriminate].
  assert (Hall : Forall (fun c => c = 32 \/ token_char c)
                   (Py.join [32] (map char_to_codepoint name))).
  { apply join_Forall; [constructor; [left; reflexivity|constructor]|].
    apply Forall_map, Forall_forall. intros c _.
    eapply Forall_impl; [|apply char_to_codepoint_token_chars]. auto. }
  rewrite Forall_forall in Hall. destruct (Hall _ H) as [E|E];
    [discriminate|unfold token_char in E; lia].
Qed.

End AnnotationInjective.

(** Two names with the same annotated form are the same name. *)
Lemma filename_with_codepoints_eq (isprintable : char -> bool) (n1 n2 : str) :
  filename_with_codepoints isprintable n1 = filename_with_codepoints isprintable n2 ->
  n1 = n2.
Proof.
  unfold filename_with_codepoints. intros E.
  change (lit " [") with [32%N; 91%N] in E.
  change (lit "]") with [93%N] in E. change (lit " ") with [32%N] in E.
  assert (E' : forall r j : str, r ++ [32%N; 91%N] ++ j = (r ++ [32%N]) ++ 91%N :: j).
  { intros r j. rewrite <- app_assoc. reflexivity. }
  rewrite !E' in E.
  apply last_bracket_unique in E; try apply tokens_no_bracket.
  apply app_inv_tail in E.
  apply codepoints_injective, join_injective; [| |exact E];
    apply Forall_map, Forall_forall; intros c _;
    apply char_to_codepoint_token_chars.
Qed.

(** X2. Two different names never get the same annotated form: what
    [filename_with_codepoints] writes identifies the name, character by
    character, however alike the two names look. *)
Theorem different_names_different_annotations (isprintable : char -> bool)
  (n1 n2 : str) :
  n1 <> n2 ->
  filename_with_codepoints isprintable n1 <> filename_with_codepoints isprintable n2.
Proof.
  intros Hne E. apply Hne. exact (filename_with_codepoints_eq E).
Qed.

(** The Cyrillic letter U+0430 and the Latin letter it looks like. *)
Lemma cyrillic_a_is_told_apart :
  [1072%N] <> [97%N] /\
  filename_with_codepoints latin1_printable [1072%N] <>
    filename_with_codepoints latin1_printable [97%N].
Proof.
  assert (H : [1072%N] <> [97%N]) by discriminate.
  split; [exact H|].
  exact (@different_names_different_annotations latin1_printable _ _ H).
Defined.

(** ** The width of a token *)

(** X7. A token has six characters exactly for the characters up to U+FFFF,
    at least seven beyond, and at most eight up to U+10FFFF, the last
    codepoint. *)
Theorem token_width (c : char) :
  ((c < 65536)%N <-> length (char_to_codepoint c) = 6) /\
  ((65536 <= c)%N -> 7 <= length (char_to_codepoint c)) /\
  ((c <= 1114111)%N -> length (char_to_codepoint c) <= 8).
Proof.
  rewrite char_to_codepoint_eq, length_app, zfill_length.
  change (length (lit "U+")) with 2.
  destruct (hex_spec c) as (Hall & Hval & Hne & Hhd).
  pose proof (hex_value_lt Hall) as Hup. rewrite Hval in Hup.
  set (L := length (Py.hex true c)) in *.
  assert (Hlow : 1 < L -> (16 ^ N.of_nat (pred L) <= c)%N).
  { intros H1. rewrite <- Hval. apply hex_value_leading; auto. }
  assert (Hsmall : forall k, (c < 16 ^ N.of_nat k)%N -> 0 < k -> L <= k).
  { intros k Hk Hpos. destruct (Nat.le_gt_cases L k) as [|Hgt]; [assumption|].
    exfalso. specialize (Hlow ltac:(lia)).
    assert ((16 ^ N.of_nat k <= 16 ^ N.of_nat (pred L))%N)
      by (apply N.pow_le_mono_r; lia).
    lia. }
  assert (Hbig : forall k, (16 ^ N.of_nat k <= c)%N -> k < L).
  { intros k Hk. destruct (Nat.le_gt_cases L k) as [Hle|]; [|assumption].
    exfalso.
    assert ((16 ^ N.of_nat L <= 16 ^ N.of_nat k)%N)
      by (apply N.pow_le_mono_r; lia).
    lia. }
  split; [split|split].
  - intros Hc. specialize (Hsmall 4 Hc ltac:(lia)).
    destruct (Nat.max_spec 4 L) as [[? ->]|[? ->]]; lia.
  - intros Hlen. destruct (N.lt_ge_cases c 65536) as [|Hge]; [assumption|].
    specialize (Hbig 4 Hge).
    destruct (Nat.max_spec 4 L) as [[? E]|[? E]]; rewrite E in Hlen; lia.
  - intros Hc. specialize (Hbig 4 Hc).
    destruct (Nat.max_spec 4 L) as [[? ->]|[? ->]]; lia.
  - intros Hc. assert (Hk : (c < 16 ^ N.of_nat 6)%N) by (simpl; lia).
    specialize (Hsmall 6 Hk ltac:(lia)).
    destruct (Nat.max_spec 4 L) as [[? ->]|[? ->]]; lia.
Qed.

(** ** A directory with nothing to show *)

(** X6. A directory whose names are all filtered out, an empty one among
    them, writes nothing and returns. *)
Theorem nothing_to_show (isprintable : char -> bool)
  (ignore_hidden ignore_git : bool) (names : list str) (child : str -> node)
  (prefix : str) :
  Forall (fun e => survives ignore_hidden ignore_git e = false) names ->
  print_tree isprintable (Dir (Return names) child) prefix ignore_hidden ignore_git =
    ([], Return tt).
Proof.
  intros Hall. rewrite print_tree_listed.
  assert (E : entries_of names ignore_hidden ignore_git = []).
  { apply Permutation_nil, Permutation_sym.
    replace [] with (filter (survives ignore_hidden ignore_git) names).
    - apply entries_survivors.
    - induction Hall as [|e l He _ IH]; [reflexivity|].
      simpl. rewrite He. exact IH. }
  unfold all_entries_of. rewrite E. reflexivity.
Qed.

(** A directory of hidden names under the filters of [main]. *)
Lemma only_hidden_names :
  Forall (fun e => survives true true e = false) [lit ".git"; lit ".cache"] /\
  print_tree latin1_printable
    (Dir (Return [lit ".git"; lit ".cache"]) (fun _ => empty_dir)) [] true true =
    ([], Return tt).
Proof.
  assert (H : Forall (fun e => survives true true e = false)
                [lit ".git"; lit ".cache"]) by (repeat constructor).
  split; [exact H|].
  exact (@nothing_to_show latin1_printable true true _ (fun _ => empty_dir) [] H).
Defined.

(** ** The order of os.listdir does not matter *)

Lemma str_leb_antisym (a b : str) :
  Py.str_leb a b = true -> Py.str_leb b a = true -> a = b.
Proof.
  revert b. induction a as [|x a IH]; intros [|y b]; simpl; try discriminate; auto.
  destruct (N.ltb_spec x y), (N.ltb_spec y x); try discriminate; try lia.
  intros H1 H2. assert (x = y) by lia. subst. f_equal. apply IH; assumption.
Qed.

Lemma str_leb_refl (a : str) : Py.str_leb a a = true.
Proof.
  induction a as [|x a IH]; [reflexivity|].
  simpl. rewrite N.ltb_irrefl. exact IH.
Qed.

(** A sorted list is determined by its elements. *)
Lemma sorted_lists_unique (l l' : list str) :
  StronglySorted str_le l -> StronglySorted str_le l' ->
  Permutation l l' -> l = l'.
Proof.
  intros H. revert l'. induction H as [|x l Hl IH Hx]; intros l' H' P.
  - apply Permutation_nil in P. congruence.
  - destruct H' as [|y l' Hl' Hy].
    + apply Permutation_sym, Permutation_nil in P. discriminate.
    + assert (Exy : x = y).
      { assert (Hxy : str_le x y).
        { assert (Hin : In y (x :: l)).
          { apply (Permutation_in _ (Permutation_sym P)). left. reflexivity. }
          destruct Hin as [->|Hin]; [apply str_leb_refl|].
          rewrite Forall_forall in Hx. exact (Hx _ Hin). }
        assert (Hyx : str_le y x).
        { assert (Hin : In x (y :: l')).
          { apply (Permutation_in _ P). left. reflexivity. }
          destruct Hin as [->|Hin]; [apply str_leb_refl|].
          rewrite Forall_forall in Hy. exact (Hy _ Hin). }
        apply str_leb_antisym; assumption. }
      subst y. f_equal. apply IH; [exact Hl'|].
      exact (Permutation_cons_inv P).
Qed.

Lemma sorted_of_permutation (l l' : list str) :
  Permutation l l' -> Py.sorted l = Py.sorted l'.
Proof.
  intros P. apply sorted_lists_unique; try apply sorted_strongly.
  eapply Permutation_trans; [apply Permutation_sym, sorted_permutation|].
  eapply Permutation_trans; [exact P|apply sorted_permutation].
Qed.

Lemma entries_of_permutation (l l' : list str) (ignore_hidden ignore_git : bool) :
  Permutation l l' ->
  entries_of l ignore_hidden ignore_git = entries_of l' ignore_hidden ignore_git.
Proof.
  intros P. unfold entries_of. rewrite (sorted_of_permutation P). reflexivity.
Qed.

Lemma entries_of_in (names : list str) (ignore_hidden ignore_git : bool) (e : str) :
  In e (entries_of names ignore_hidden ignore_git) -> In e names.
Proof.
  intros H.
  apply (Permutation_in _ (entries_survivors names ignore_hidden ignore_git)) in H.
  apply filter_In in H. apply H.
Qed.

Lemma same_listing_isdir (a b : node) :
  same_listing a b -> os_path_isdir a = os_path_isdir b.
Proof. destruct 1; reflexivity. Qed.

Lemma for_ext_in {A : Type} (f g : A -> IO unit) (l : list A) :
  (forall x, In x l -> f x = g x) -> for_ f l = for_ g l.
Proof.
  induction l as [|x l IH]; intros H; [reflexivity|].
  simpl. rewrite (H x) by (left; reflexivity).
  rewrite IH; [reflexivity|]. intros y Hy. apply H. right. exact Hy.
Qed.

Lemma enumerate_in {A : Type} (l : list A) (i : Z) (x : A) :
  In (i, x) (Py.enumerate l) -> In x l.
Proof.
  intros H. rewrite <- (enumerate_from_snd 0 l).
  apply in_map_iff. exists (i, x). split; [reflexivity|exact H].
Qed.

(** X4. The run does not depend on the order in which a listing gives its
    names, at the root or below, nor on what lies at names no listing gives:
    two trees alike but for that get the same lines and the same end. *)
Theorem listing_order_does_not_matter (isprintable : char -> bool)
  (ignore_hidden ignore_git : bool) (root root' : node) :
  same_listing root root' ->
  forall prefix,
    print_tree isprintable root prefix ignore_hidden ignore_git =
    print_tree isprintable root' prefix ignore_hidden ignore_git.
Proof.
  induction 1 as [| |e child child'|names names' child child' P Hsame IH];
    intros prefix; try reflexivity.
  rewrite !print_tree_listed. unfold all_entries_of.
    rewrite <- (entries_of_permutation ignore_hidden ignore_git P).
    set (entries := entries_of names ignore_hidden ignore_git).
    assert (Hin : forall e, In e entries -> In e names)
      by (intros e; apply entries_of_in).
    assert (Hdir : forall e, In e entries ->
                     os_path_isdir (child e) = os_path_isdir (child' e)).
    { intros e He. apply same_listing_isdir, Hsame, Hin, He. }
    assert (Hf : files_of child' entries = files_of child entries).
    { apply filter_ext_in. intros e He. rewrite (Hdir e He). reflexivity. }
    assert (Hd : dirs_of child' entries = dirs_of child entries).
    { apply filter_ext_in. intros e He. rewrite (Hdir e He). reflexivity. }
    rewrite Hf, Hd. apply for_ext_in. intros [i e] Hie.
    assert (He : In e entries).
    { apply enumerate_in in Hie. apply in_app_or in Hie.
      destruct Hie as [Hie|Hie]; apply filter_In in Hie; apply Hie. }
    unfold visit. rewrite <- (Hdir e He).
    destruct (os_path_isdir (child e)); [|reflexivity].
    rewrite (IH e (Hin e He)). reflexivity.
Qed.

(** The sample listing, given in another order. *)
Lemma sample_listing_reordered :
  same_listing sample_root
    (Dir (Return [lit "sub"; lit "b.txt"; lit ".git"; lit "a.txt"; [233%N]])
       sample_child) /\
  print_tree latin1_printable sample_root [] true true =
  print_tree latin1_printable
    (Dir (Return [lit "sub"; lit "b.txt"; lit ".git"; lit "a.txt"; [233%N]])
       sample_child) [] true true.
Proof.
  assert (Hrefl : forall n, same_listing n n).
  { induction n as [| |[names|e] child IH]; constructor; auto. }
  assert (H : same_listing sample_root
                (Dir (Return [lit "sub"; lit "b.txt"; lit ".git"; lit "a.txt"; [233%N]])
                   sample_child)).
  { constructor; [|intros; apply Hrefl].
    unfold sample_names. apply perm_swap. }
  split; [exact H|].
  exact (listing_order_does_not_matter latin1_printable true true H []).
Defined.

(** ** One line for every entry, one for every locked directory *)

Lemma list_sum_map_add {A : Type} (f g : A -> nat) (l : list A) :
  list_sum (map (fun x => f x + g x) l) = list_sum (map f l) + list_sum (map g l).
Proof. induction l as [|x l IH]; simpl; lia. Qed.

Lemma denied_not_dir (n : node) (ignore_hidden ignore_git : bool) :
  os_path_isdir n = false -> denied_reached n ignore_hidden ignore_git = 0.
Proof. destruct n; [reflexivity|reflexivity|discriminate]. Qed.

(** In the model a run that meets no listing that fails for another reason
    than permission writes one line for every entry it reaches and one for
    every directory it reaches and may not list. *)
Lemma lines_of_a_run (isprintable : char -> bool)
  (ignore_hidden ignore_git : bool) (root : node) (prefix : str) :
  uncaught root ignore_hidden ignore_git = None ->
  length (output (print_tree isprintable root prefix ignore_hidden ignore_git)) =
    reachable_entries root ignore_hidden ignore_git
    + denied_reached root ignore_hidden ignore_git.
Proof.
  revert prefix.
  induction root as [| |listing child IH]; intros prefix Hok; try discriminate.
  destruct listing as [names|e]; [|destruct e; try discriminate; reflexivity].
  assert (Hret : result (print_tree isprintable (Dir (Return names) child) prefix
                           ignore_hidden ignore_git) = Return tt).
  { rewrite result_walk, Hok. reflexivity. }
  rewrite output_listed. rewrite print_tree_listed in Hret.
  rewrite (started_all _ _ Hret), enumerate_length.
  rewrite firstn_all2 by (unfold indexed; rewrite indexed_from_length; lia).
  simpl uncaught in Hok. apply first_raise_None in Hok.
  rewrite Forall_map, Forall_forall in Hok.
  set (total := fun entry =>
         S (reachable_entries (child entry) ignore_hidden ignore_git)
         + denied_reached (child entry) ignore_hidden ignore_git).
  set (all := all_entries_of child names ignore_hidden ignore_git) in *.
  assert (Hblocks : forall ie, In ie (indexed all) ->
            length (block isprintable ignore_hidden ignore_git child prefix
                      (length all) (fst ie) (snd ie)) = total (snd ie)).
  { intros [i entry] Hin. unfold block, total. cbn [fst snd length].
    destruct (os_path_isdir (child entry)) eqn:Hdir.
    - rewrite IH; [lia|]. symmetry. apply Hok.
      apply filter_In. split; [|exact Hdir].
      assert (He : In entry all).
      { rewrite <- (indexed_from_snd 0 all). apply in_map_iff.
        exists (i, entry). split; [reflexivity|exact Hin]. }
      apply in_app_or in He. destruct He as [He|He]; apply filter_In in He; apply He.
    - rewrite reachable_not_dir, denied_not_dir by exact Hdir. reflexivity. }
  transitivity (list_sum (map total all)).
  - rewrite <- (indexed_from_snd 0 all) at 2. fold (indexed all).
    rewrite map_map. revert Hblocks. generalize (length all) (indexed all).
    intros n l Hblocks. induction l as [|ie l IHl]; [reflexivity|].
    cbn [map concat list_sum]. rewrite length_app, IHl.
    + rewrite Hblocks by (left; reflexivity). reflexivity.
    + intros x Hx. apply Hblocks. right. exact Hx.
  - unfold all, all_entries_of, files_of, dirs_of.
    rewrite (list_sum_filter_split total (fun entry => os_path_isdir (child entry))).
    rewrite (list_sum_map_permutation total
               (entries_survivors names ignore_hidden ignore_git)).
    unfold total. rewrite list_sum_map_add. reflexivity.
Qed.

(** X8. When the run returns, it has written exactly one line for every
    entry it reached and one for every directory it reached and might not
    list, whatever the prefix. *)
Theorem one_line_per_entry_and_locked_directory (isprintable : char -> bool)
  (ignore_hidden ignore_git : bool) (root : node) (prefix : str) :
  result (print_tree isprintable root prefix ignore_hidden ignore_git) = Return tt ->
  length (output (print_tree isprintable root prefix ignore_hidden ignore_git)) =
    reachable_entries root ignore_hidden ignore_git
    + denied_reached root ignore_hidden ignore_git.
Proof.
  intros Hret. apply lines_of_a_run.
  rewrite result_walk in Hret.
  destruct (uncaught root ignore_hidden ignore_git); [discriminate|reflexivity].
Qed.

(** The sample tree: the run returns; seven entries and one locked
    directory, eight lines. *)
Lemma sample_line_count :
  result (print_tree latin1_printable sample_root [] true true) = Return tt /\
  length (output (print_tree latin1_printable sample_root [] true true)) = 7 + 1.
Proof.
  split; [reflexivity|].
  exact (one_line_per_entry_and_locked_directory latin1_printable true true
           sample_root [] eq_refl).
Defined.

(** ** No empty line in the tree *)

(** X10. No line of a run is empty: in what [main] writes, the empty lines
    are the two that frame the tree. *)
Theorem print_tree_writes_no_empty_line (isprintable : char -> bool)
  (ignore_hidden ignore_git : bool) (root : node) (prefix : str) :
  Forall (fun line => line <> [])
    (output (print_tree isprintable root prefix ignore_hidden ignore_git)).
Proof.
  revert prefix.
  induction root as [| |listing child IH]; intros prefix; try constructor.
  destruct listing as [names|e].
  - rewrite output_listed. apply Forall_concat, Forall_map, Forall_forall.
    intros [i entry] _. unfold block. cbn [fst snd]. constructor.
    + unfold entry_line. intros E. apply app_eq_nil in E. destruct E as [_ E].
      apply app_eq_nil in E. destruct E as [E _].
      destruct (is_last_index _ i); discriminate.
    + destruct (os_path_isdir (child entry)); [apply IH|constructor].
  - destruct e; try constructor; [|constructor].
    intros E. apply app_eq_nil in E. destruct E as [_ E]. discriminate.
Qed.
